(** * TalkDocs: the document-ingestion and question pipeline of [app.py]

    A shallow embedding of [src/app.py].  Python strings are sequences of
    code points, the Streamlit session and everything the script prints are
    an explicit world threaded through a small state-and-exception monad, and
    the third-party objects (PDF reader, embeddings, index, chat model) are
    handles whose failures are supplied by a record of external outcomes. *)

From Stdlib Require Import Ascii String.
From Stdlib Require Import List NArith ZArith Bool Lia.
Import ListNotations.

Set Implicit Arguments.

(** ** Python strings *)

Module PyStr.

(** A Python [str]: the sequence of its Unicode code points, so that
    [len] is [length] and slicing is on code points. *)
Definition str := list N.

(** An ASCII literal of the source as a [str]. *)
Fixpoint lit (s : string) : str :=
  match s with
  | EmptyString => []
  | String c s' => N_of_ascii c :: lit s'
  end.
Arguments lit s%_string.

Definition str_eqb (a b : str) : bool :=
  if list_eq_dec N.eq_dec a b then true else false.

(** Truthiness of a [str]: the empty string is falsy. *)
Definition truthy (s : str) : bool :=
  match s with [] => false | _ :: _ => true end.

(** [str.isspace] on one code point (CPython's [_PyUnicode_IsWhitespace]). *)
Definition is_space (c : N) : bool :=
  ((9 <=? c) && (c <=? 13) || (28 <=? c) && (c <=? 32)
   || (c =? 133) || (c =? 160) || (c =? 5760)
   || (8192 <=? c) && (c <=? 8202)
   || (c =? 8232) || (c =? 8233) || (c =? 8239) || (c =? 8287)
   || (c =? 12288))%N.

Fixpoint lstrip (s : str) : str :=
  match s with
  | c :: s' => if is_space c then lstrip s' else s
  | [] => []
  end.

Definition rstrip (s : str) : str := rev (lstrip (rev s)).

(** [s.strip()] with no argument. *)
Definition strip (s : str) : str := rstrip (lstrip s).

(** [sep.join(parts)]. *)
Fixpoint join (sep : str) (parts : list str) : str :=
  match parts with
  | [] => []
  | [p] => p
  | p :: ps => p ++ sep ++ join sep ps
  end.

(** [s.startswith(p)]. *)
Fixpoint starts_with (p s : str) : bool :=
  match p, s with
  | [], _ => true
  | _ :: _, [] => false
  | a :: p', b :: s' => (a =? b)%N && starts_with p' s'
  end.

(** [s.split(sep)] for a non-empty [sep], which is also what [re.split]
    does with an escaped literal: the pieces between the non-overlapping
    occurrences of [sep], found left to right.  [skip] counts the code
    points of a matched separator still to be dropped, [cur] is the piece
    being read, reversed. *)
Fixpoint split_go (sep : str) (skip : nat) (cur : str) (s : str) : list str :=
  match s with
  | [] => [rev cur]
  | c :: s' =>
      match skip with
      | S k => split_go sep k cur s'
      | O =>
          if starts_with sep s
          then rev cur :: split_go sep (pred (length sep)) [] s'
          else split_go sep 0 (c :: cur) s'
      end
  end.

Definition split (sep : str) (s : str) : list str := split_go sep 0 [] s.

(** [s.replace(old, new)] for a non-empty [old]. *)
Definition replace (old new s : str) : str := join new (split old s).

(** [len(s)] as a Python integer. *)
Definition len (s : str) : Z := Z.of_nat (length s).

Definition nl : str := [10%N].
Definition dq : str := [34%N].

End PyStr.
Import PyStr.

(** ** Exceptions, the Streamlit world and the script monad *)

Inductive exn :=
| TypeError
| AttributeError
| IndexError
| LibraryError (origin : string).

Inductive result (A : Type) :=
| Ok (a : A)
| Raise (e : exn).
Arguments Ok {A} a.
Arguments Raise {A} e.

(** Handles of the third-party objects the script builds: each records the
    arguments it was constructed from. *)
Record HuggingFaceEmbeddings := { hf_model_name : str }.

Record FAISS := { faiss_texts : list str; faiss_embedding : HuggingFaceEmbeddings }.

Record ChatGroq := { groq_model_name : str }.

Record ConversationBufferMemory := { memory_key : str; return_messages : bool }.

Inductive message_template :=
| SystemMessagePromptTemplate (template : str)
| HumanMessagePromptTemplate (template : str).

Definition ChatPromptTemplate := list message_template.

(** The keyword arguments of [ConversationalRetrievalChain.from_llm];
    [combine_docs_prompt] is the prompt override
    ([combine_docs_chain_kwargs={"prompt": ...}]), [None] when the caller
    passes none and the library's default prompt is in force. *)
Record ConversationalRetrievalChain := {
  llm : ChatGroq;
  retriever : FAISS;
  memory : ConversationBufferMemory;
  combine_docs_prompt : option ChatPromptTemplate
}.

(** [st.session_state]: a key is absent ([None]) or bound; [conversation]
    can be bound to Python's [None]. *)
Record session_state := {
  conversation : option (option ConversationalRetrievalChain);
  chat_history : option (list (str * str))
}.

(** What a script run does to the page and to the outside, in order.
    [Enter f] is a ghost event marking the entry into the function [f] of
    [app.py]; [Invoke q] is the call of the conversation chain;
    [ExceptionBox e] is Streamlit reporting an exception that the script
    did not catch. *)
Inductive event :=
| Warning (msg : str)
| Error (msg : str)
| Success (msg : str)
| Write (html : str)
| Header (txt : str)
| Subheader (txt : str)
| PlaceholderMarkdown (html : str)
| PlaceholderEmpty
| Sleep (milliseconds : N)
| Invoke (question : str)
| Enter (fn : string)
| ExceptionBox (e : exn).

Record world := { session : session_state; screen : list event }.

Definition M (A : Type) := world -> result A * world.

Definition ret {A} (a : A) : M A := fun w => (Ok a, w).

Definition bind {A B} (m : M A) (k : A -> M B) : M B :=
  fun w => match m w with
           | (Ok a, w') => k a w'
           | (Raise e, w') => (Raise e, w')
           end.

Definition raise {A} (e : exn) : M A := fun w => (Raise e, w).

Definition of_result {A} (r : result A) : M A := fun w => (r, w).

Definition emit (ev : event) : M unit :=
  fun w => (Ok tt, {| session := session w; screen := screen w ++ [ev] |}).

(** Streamlit's script runner: an uncaught exception ends the run and is
    shown on the page; the session is kept either way. *)
Definition run_action (m : M unit) (w : world) : world :=
  match m w with
  | (Ok _, w') => w'
  | (Raise e, w') =>
      {| session := session w'; screen := screen w' ++ [ExceptionBox e] |}
  end.

Definition is_error (ev : event) : bool :=
  match ev with
  | Error _ | ExceptionBox _ => true
  | _ => false
  end.

Definition is_success (ev : event) : bool :=
  match ev with
  | Success _ => true
  | _ => false
  end.

(** The functions of [app.py] entered, in order. *)
Definition entered (evs : list event) : list string :=
  flat_map (fun ev => match ev with Enter fn => [fn] | _ => [] end) evs.

Definition get_session : M session_state := fun w => (Ok (session w), w).

Definition put_session (s : session_state) : M unit :=
  fun w => (Ok tt, {| session := s; screen := screen w |}).

Declare Scope script_scope.
Delimit Scope script_scope with script.
Notation "x <- m ;; k" := (bind m (fun x => k))
  (at level 61, m at next level, right associativity) : script_scope.
Notation "m ;; k" := (bind m (fun _ => k))
  (at level 61, right associativity) : script_scope.
Open Scope script_scope.

(** ** Extractor: [get_pdf_text] *)

(** An uploaded file as the script sees it: its name, and what
    [PdfReader(pdf)] does with its bytes, either an exception or the pages,
    each page being what [page.extract_text()] does. *)
Record UploadedFile := {
  name : str;
  PdfReader : result (list (result (option str)))
}.

(** The inner loop over [pdf_reader.pages] (lines 25-28). *)
Fixpoint extract_pages (pages : list (result (option str))) (file_text : str)
  : result str :=
  match pages with
  | [] => Ok file_text
  | Raise e :: _ => Raise e
  | Ok extracted_text :: rest =>
      match extracted_text with
      | Some t => extract_pages rest (if truthy t then file_text ++ t else file_text)
      | None => extract_pages rest file_text
      end
  end.

(** Lines 23-28: the part of the [try] body that can raise. *)
Definition read_file (pdf : UploadedFile) : result str :=
  match PdfReader pdf with
  | Raise e => Raise e
  | Ok pages => extract_pages pages []
  end.

(** One iteration of the loop over [pdf_docs] (lines 21-36) on the three
    accumulators [text], [unreadable_files], [empty_text_files]. *)
Definition pdf_step (acc : str * list str * list str) (pdf : UploadedFile)
  : str * list str * list str :=
  let '(text, unreadable_files, empty_text_files) := acc in
  match read_file pdf with
  | Ok file_text =>
      if truthy (strip file_text)
      then (text ++ file_text, unreadable_files, empty_text_files)
      else (text, unreadable_files, empty_text_files ++ [name pdf])
  | Raise _ => (text, unreadable_files ++ [name pdf], empty_text_files)
  end.

Definition warning_sign : str := [9888; 65039]%N.
Definition cross_mark : str := [10060]%N.
Definition check_mark : str := [9989]%N.

Definition unreadable_warning (names : list str) : str :=
  warning_sign
  ++ lit " The following PDFs could not be read due to corruption or format issues: "
  ++ join (lit ", ") names.

Definition empty_text_warning (names : list str) : str :=
  warning_sign
  ++ lit " The following PDFs had no extractable text: "
  ++ join (lit ", ") names.

Definition is_nil {A} (l : list A) : bool :=
  match l with [] => true | _ :: _ => false end.

Definition get_pdf_text (pdf_docs : list UploadedFile) : M (option str) :=
  let '(text, unreadable_files, empty_text_files) :=
    fold_left pdf_step pdf_docs ([], [], []) in
  if negb (is_nil unreadable_files) then
    emit (Warning (unreadable_warning unreadable_files)) ;;
    ret None
  else if negb (is_nil empty_text_files) then
    emit (Warning (empty_text_warning empty_text_files)) ;;
    ret None
  else ret (Some text).

(** The two ways a document can be bad, and the text of a good one. *)
Definition unreadable (pdf : UploadedFile) : bool :=
  match read_file pdf with Raise _ => true | Ok _ => false end.

Definition empty_text (pdf : UploadedFile) : bool :=
  match read_file pdf with
  | Ok file_text => negb (truthy (strip file_text))
  | Raise _ => false
  end.

(** A document that is neither unreadable nor empty-text. *)
Definition usable (pdf : UploadedFile) : bool :=
  negb (unreadable pdf) && negb (empty_text pdf).

Definition file_text_of (pdf : UploadedFile) : str :=
  match read_file pdf with Ok file_text => file_text | Raise _ => [] end.

(** ** Chunker: [get_text_chunks] over the library's [CharacterTextSplitter] *)

(** The splitter is not code of this repository: the definitions of this
    module follow [split_text], [_merge_splits] and [_join_docs] of
    [langchain_text_splitters], for a literal (non-regex) separator that is
    dropped from the pieces ([keep_separator=False]) and with
    [strip_whitespace=True], the defaults [app.py] leaves in place.  The
    log line the library writes for an oversized chunk is left out. *)
Module Splitter.

Record CharacterTextSplitter := {
  separator : str;
  chunk_size : Z;
  chunk_overlap : Z
}.

Section Methods.

Variable self : CharacterTextSplitter.

(** [_join_docs]: join, strip, and [None] for an empty result. *)
Definition join_docs (docs : list str) (sep : str) : option str :=
  let text := strip (join sep docs) in
  if truthy text then Some text else None.

(** [separator_len if cond else 0]. *)
Definition sep_if (cond : bool) (separator_len : Z) : Z :=
  if cond then separator_len else 0.

(** The guard shared by the [if] and the [while] of [_merge_splits]:
    adding a piece of length [_len] would exceed [chunk_size]. *)
Definition overflows (current_doc : list str) (total _len separator_len : Z)
  : bool :=
  (chunk_size self
   <? total + _len + sep_if (negb (is_nil current_doc)) separator_len)%Z.

(** The [while] loop of [_merge_splits]: drop pieces from the front of
    [current_doc] until at most [chunk_overlap] is kept and the next piece
    fits.  [current_doc[0]] on an empty list is an [IndexError]. *)
Fixpoint pop_front (_len separator_len : Z) (current_doc : list str)
  (total : Z) : result (list str * Z) :=
  if ((chunk_overlap self <? total)%Z
      || overflows current_doc total _len separator_len && (0 <? total)%Z)
  then
    match current_doc with
    | [] => Raise IndexError
    | first :: rest =>
        pop_front _len separator_len rest
          (total - (len first
                    + sep_if (1 <? length current_doc)%nat separator_len))%Z
    end
  else Ok (current_doc, total).

(** One iteration of the [for d in splits] loop, on [docs], [current_doc]
    and [total]. *)
Definition merge_step (sep : str) (st : list str * list str * Z) (d : str)
  : result (list str * list str * Z) :=
  let '(docs, current_doc, total) := st in
  let separator_len := len sep in
  let _len := len d in
  let flushed :=
    if overflows current_doc total _len separator_len then
      if negb (is_nil current_doc) then
        let docs' :=
          match join_docs current_doc sep with
          | Some doc => docs ++ [doc]
          | None => docs
          end in
        match pop_front _len separator_len current_doc total with
        | Ok (current_doc', total') => Ok (docs', current_doc', total')
        | Raise e => Raise e
        end
      else Ok (docs, current_doc, total)
    else Ok (docs, current_doc, total) in
  match flushed with
  | Raise e => Raise e
  | Ok (docs, current_doc, total) =>
      let current_doc := current_doc ++ [d] in
      Ok (docs, current_doc,
          (total + _len + sep_if (1 <? length current_doc)%nat separator_len)%Z)
  end.

Fixpoint merge_loop (sep : str) (splits : list str)
  (st : list str * list str * Z) : result (list str * list str * Z) :=
  match splits with
  | [] => Ok st
  | d :: rest =>
      match merge_step sep st d with
      | Ok st' => merge_loop sep rest st'
      | Raise e => Raise e
      end
  end.

(** [_merge_splits]. *)
Definition merge_splits (splits : list str) (sep : str) : result (list str) :=
  match merge_loop sep splits ([], [], 0%Z) with
  | Raise e => Raise e
  | Ok (docs, current_doc, _) =>
      match join_docs current_doc sep with
      | Some doc => Ok (docs ++ [doc])
      | None => Ok docs
      end
  end.

(** [split_text]: cut at every separator, drop the empty pieces, merge. *)
Definition split_text (text : str) : result (list str) :=
  let splits := filter truthy (split (separator self) text) in
  merge_splits splits (separator self).

End Methods.

End Splitter.

Definition text_splitter : Splitter.CharacterTextSplitter :=
  {| Splitter.separator := nl;
     Splitter.chunk_size := 1000;
     Splitter.chunk_overlap := 200 |}.

Definition get_text_chunks (text : str) : result (list str) :=
  if negb (truthy text) then Ok []
  else Splitter.split_text text_splitter text.

(** ** What the outside does in one script run *)

(** The imports of [htmlTemplates] (a module of the repository that is not
    part of the sources at hand), the process environment, and for every
    third-party call whether it raises. *)
Record externals := {
  css : str;
  bot_template : str;
  user_template : str;
  getenv : str -> option str;
  HuggingFaceEmbeddings_raises : str -> option exn;
  FAISS_from_texts_raises : list str -> HuggingFaceEmbeddings -> option exn;
  ChatGroq_raises : str -> option exn;
  from_llm_raises : ConversationalRetrievalChain -> option exn;
  (** [chain({'question': q})['answer']] *)
  answer : ConversationalRetrievalChain -> str -> result str
}.

Definition construct {A} (raises : option exn) (obj : A) : result A :=
  match raises with
  | Some e => Raise e
  | None => Ok obj
  end.

Section Script.

Variable ext : externals.

(** ** Indexer: [get_vectorstore] *)

Definition get_vectorstore (text_chunks : list str) : result (option FAISS) :=
  if is_nil text_chunks then Ok None
  else
    let model_name := lit "sentence-transformers/all-MiniLM-L6-v2" in
    match construct (HuggingFaceEmbeddings_raises ext model_name)
                    {| hf_model_name := model_name |} with
    | Raise e => Raise e
    | Ok embeddings =>
        match construct (FAISS_from_texts_raises ext text_chunks embeddings)
                        {| faiss_texts := text_chunks;
                           faiss_embedding := embeddings |} with
        | Raise e => Raise e
        | Ok vectorstore => Ok (Some vectorstore)
        end
    end.

(** ** Answerer: [get_conversation_chain] *)

Definition system_prompt : str :=
  lit "You are a helpful AI assistant for 'TalkDocs'." ++ nl ++
  lit "    Always answer based only on the provided documents." ++ nl ++
  lit "    If the answer is not found in the documents, say " ++ dq ++
  lit "I couldn't find that in your files." ++ dq ++ nl ++
  lit "    Provide clear, concise, and well-formatted responses." ++ nl ++
  lit "    Also you are able to compare document's contents and judge which one is better or best." ++
  nl ++ lit "    ".

(** Lines 91-94: the prompt the function builds. *)
Definition prompt : ChatPromptTemplate :=
  [ SystemMessagePromptTemplate system_prompt;
    HumanMessagePromptTemplate (lit "{question}") ].

Definition get_conversation_chain (vectorstore : option FAISS)
  : M (option ConversationalRetrievalChain) :=
  match vectorstore with
  | None =>
      emit (Error (cross_mark ++ lit " Cannot create conversation chain: vectorstore is missing or invalid.")) ;;
      ret None
  | Some vectorstore =>
      let model_name := lit "llama3-8b-8192" in
      llm <- of_result (construct (ChatGroq_raises ext model_name)
                                  {| groq_model_name := model_name |}) ;;
      let prompt := prompt in
      let memory := {| memory_key := lit "chat_history";
                       return_messages := true |} in
      (* from_llm(llm=llm, retriever=vectorstore.as_retriever(), memory=memory) *)
      let kwargs := {| llm := llm;
                       retriever := vectorstore;
                       memory := memory;
                       combine_docs_prompt := None |} in
      conversation_chain <- of_result (construct (from_llm_raises ext kwargs) kwargs) ;;
      ret (Some conversation_chain)
  end.

(** The prompt a chain answers with: its override when it has one, the
    library's default otherwise. *)
Definition prompt_in_force (library_default : ChatPromptTemplate)
  (chain : ConversationalRetrievalChain) : ChatPromptTemplate :=
  match combine_docs_prompt chain with
  | Some p => p
  | None => library_default
  end.

(** ** Question handling: [handle_userinput] *)

Definition typing_html : str :=
  nl ++ lit "        <div class=" ++ dq ++ lit "chat-message bot" ++ dq ++
  lit ">" ++ nl ++ lit "            <div class=" ++ dq ++ lit "avatar" ++
  dq ++ lit ">" ++ nl ++ lit "                <img src=" ++ dq ++
  lit "https://media.istockphoto.com/id/1221348467/vector/chat-bot-ai-and-customer-service-support-concept-vector-flat-person-illustration-smiling.jpg?s=612x612&w=0&k=20&c=emMSOYb4jWIVQQBVpYvP9LzGwPXXhcmbpZHlE6wgR78=" ++
  dq ++ lit " alt=" ++ dq ++ lit "Bot Avatar" ++ dq ++ lit ">" ++ nl ++
  lit "            </div>" ++ nl ++ lit "            <div class=" ++ dq ++
  lit "message" ++ dq ++ lit ">Typing<span class=" ++ dq ++ lit "dot" ++
  dq ++ lit ">.</span><span class=" ++ dq ++ lit "dot" ++ dq ++
  lit ">.</span><span class=" ++ dq ++ lit "dot" ++ dq ++
  lit ">.</span></div>" ++ nl ++ lit "        </div>" ++ nl ++ lit "    ".

(** [st.session_state.chat_history.append(entry)]. *)
Definition append_history (entry : str * str) : M unit :=
  s <- get_session ;;
  match chat_history s with
  | None => raise AttributeError
  | Some history =>
      put_session {| conversation := conversation s;
                     chat_history := Some (history ++ [entry]) |}
  end.

(** One message of the transcript, as lines 118-121 write it. *)
Definition render (entry : str * str) : event :=
  let '(role, msg) := entry in
  if str_eqb role (lit "user")
  then Write (replace (lit "{{MSG}}") msg (user_template ext))
  else Write (replace (lit "{{MSG}}") msg (bot_template ext)).

Fixpoint emit_all (evs : list event) : M unit :=
  match evs with
  | [] => ret tt
  | ev :: rest => emit ev ;; emit_all rest
  end.

(** [st.session_state.conversation({'question': q})['answer']]: the
    attribute must be bound, and [None] is not callable. *)
Definition ask (user_question : str) : M str :=
  s <- get_session ;;
  match conversation s with
  | None => raise AttributeError
  | Some None => raise TypeError
  | Some (Some chain) =>
      emit (Invoke user_question) ;;
      of_result (answer ext chain user_question)
  end.

Definition handle_userinput (user_question : str) : M unit :=
  s <- get_session ;;
  (match chat_history s with
   | None => put_session {| conversation := conversation s;
                            chat_history := Some [] |}
   | Some _ => ret tt
   end) ;;
  append_history (lit "user", user_question) ;;
  s <- get_session ;;
  match chat_history s with
  | None => raise AttributeError
  | Some history =>
      emit_all (map render history) ;;
      emit (PlaceholderMarkdown typing_html) ;;
      emit (Sleep 1500) ;;
      bot_reply <- ask user_question ;;
      emit PlaceholderEmpty ;;
      append_history (lit "bot", bot_reply) ;;
      emit (Write (replace (lit "{{MSG}}") bot_reply (bot_template ext)))
  end.

(** The transcript a session holds ([main] binds it before any question
    is handled; [handle_userinput] starts from the empty one otherwise). *)
Definition history_of (s : session_state) : list (str * str) :=
  match chat_history s with
  | Some history => history
  | None => []
  end.

(** ** Session controller: [main] *)

(** [os.environ[key] = os.getenv(key)]: assigning [None] is a [TypeError]. *)
Definition copy_env (key : str) : M unit :=
  match getenv ext key with
  | Some _ => ret tt
  | None => raise TypeError
  end.

Definition is_none {A} (o : option A) : bool :=
  match o with Some _ => false | None => true end.

Definition no_upload_error : str :=
  cross_mark ++ lit " No PDF uploaded. Please upload at least one PDF before processing.".

Definition no_text_error : str :=
  cross_mark ++ lit " PDF processing stopped. No usable text found.".

Definition no_chunks_error : str :=
  cross_mark ++ lit " No text chunks could be generated. Please try a different document.".

Definition no_vectorstore_error : str :=
  cross_mark ++ lit " Vectorstore creation failed.".

Definition no_chain_error : str :=
  cross_mark ++ lit " Failed to initialize conversation chain.".

Definition processed_message : str :=
  check_mark ++ lit " PDF(s) processed successfully! You can now start chatting.".

(** The body of [if st.button("Process"):] (lines 179-206); every [return]
    of the source ends the action.  [not raw_text] holds of [None] and of
    the empty string.  The spinner shows nothing that stays on the page. *)
Definition process (pdf_docs : list UploadedFile) : M unit :=
  if is_nil pdf_docs then emit (Error no_upload_error)
  else
    emit (Enter "get_pdf_text") ;;
    raw_text <- get_pdf_text pdf_docs ;;
    match raw_text with
    | None => emit (Error no_text_error)
    | Some raw_text =>
    if negb (truthy raw_text) then emit (Error no_text_error)
    else
      emit (Enter "get_text_chunks") ;;
      text_chunks <- of_result (get_text_chunks raw_text) ;;
      if is_nil text_chunks then emit (Error no_chunks_error)
      else
        emit (Enter "get_vectorstore") ;;
        vectorstore <- of_result (get_vectorstore text_chunks) ;;
        if is_none vectorstore then emit (Error no_vectorstore_error)
        else
          emit (Enter "get_conversation_chain") ;;
          conversation <- get_conversation_chain vectorstore ;;
          if is_none conversation then emit (Error no_chain_error)
          else
            s <- get_session ;;
            put_session {| conversation := Some conversation;
                           chat_history := chat_history s |} ;;
            emit (Success processed_message)
    end.

(** What the widgets return in one run of the script. *)
Record widgets := {
  user_question : str;
  pdf_docs : list UploadedFile;
  process_clicked : bool
}.

(** [main]: the four environment copies, the page header, the session
    defaults, the question if there is one, then the sidebar.  The widgets
    ([text_input], [file_uploader], [button]) are the inputs [ui];
    [set_page_config] writes nothing to the page. *)
Definition main (ui : widgets) : M unit :=
  copy_env (lit "LANGSMITH_API_KEY") ;;
  copy_env (lit "LANGSMITH_TRACING_v2") ;;
  copy_env (lit "LANGSMITH_PROJECT") ;;
  copy_env (lit "LANGSMITH_ENDPOINT") ;;
  emit (Write (css ext)) ;;
  s <- get_session ;;
  (if is_none (conversation s)
   then put_session {| conversation := Some None;
                       chat_history := chat_history s |}
   else ret tt) ;;
  s <- get_session ;;
  (if is_none (chat_history s)
   then put_session {| conversation := conversation s;
                       chat_history := Some [] |}
   else ret tt) ;;
  emit (Header (lit "TalkDocs :books:")) ;;
  emit (Subheader (lit "Chat with multiple PDFs")) ;;
  (if truthy (user_question ui)
   then handle_userinput (user_question ui)
   else ret tt) ;;
  emit (Subheader (lit "Your documents")) ;;
  if process_clicked ui then process (pdf_docs ui) else ret tt.

End Script.

(** ** Sessions: the script is rerun on every interaction *)

Record run := { outside : externals; ui : widgets }.

Definition session_empty : session_state :=
  {| conversation := None; chat_history := None |}.

(** One rerun: a fresh page, the session carried over, whether the script
    ends normally or with an exception. *)
Definition rerun (s : session_state) (r : run) : session_state :=
  session (run_action (main (outside r) (ui r)) {| session := s; screen := [] |}).

Definition session_after (runs : list run) : session_state :=
  fold_left rerun runs session_empty.

(** The chain a session is bound to, if any. *)
Definition chain_of (s : session_state) : option ConversationalRetrievalChain :=
  match conversation s with
  | Some (Some chain) => Some chain
  | _ => None
  end.

(** The session is bound to no chain. *)
Definition idle (s : session_state) : Prop := chain_of s = None.

(** [m] keeps the property [P] of the session, however it ends. *)
Definition keeps (P : session_state -> Prop) {A} (m : M A) : Prop :=
  forall w, P (session w) -> P (session (snd (m w))).

(** ** The stages of the pipeline *)

Inductive stage := Extraction | Chunking | Indexing | ChainConstruction.

(** The functions entered when the pipeline gets as far as [st]. *)
Definition stages_through (st : stage) : list string :=
  match st with
  | Extraction => ["get_pdf_text"]
  | Chunking => ["get_pdf_text"; "get_text_chunks"]
  | Indexing => ["get_pdf_text"; "get_text_chunks"; "get_vectorstore"]
  | ChainConstruction =>
      ["get_pdf_text"; "get_text_chunks"; "get_vectorstore";
       "get_conversation_chain"]
  end%string.

Definition blank_world : world :=
  {| session := session_empty; screen := [] |}.

(** The first stage that fails on a batch, by returning nothing usable or
    by raising; [None] when the four stages succeed in sequence. *)
Definition failed_stage (ext : externals) (pdf_docs : list UploadedFile)
  : option stage :=
  match fst (get_pdf_text pdf_docs blank_world) with
  | Ok (Some (c :: raw_text)) =>
      match get_text_chunks (c :: raw_text) with
      | Ok (chunk :: text_chunks) =>
          match get_vectorstore ext (chunk :: text_chunks) with
          | Ok (Some vectorstore) =>
              match fst (get_conversation_chain ext (Some vectorstore) blank_world) with
              | Ok (Some _) => None
              | _ => Some ChainConstruction
              end
          | _ => Some Indexing
          end
      | _ => Some Chunking
      end
  | _ => Some Extraction
  end.

(** A run in which the Process button is pressed on a non-empty upload and
    the four stages succeed in sequence. *)
Definition fully_successful (r : run) : bool :=
  process_clicked (ui r)
  && negb (is_nil (pdf_docs (ui r)))
  && is_none (failed_stage (outside r) (pdf_docs (ui r))).

(** What a run of the script, started in the session [s], leaves on the
    page. *)
Definition run_page (s : session_state) (r : run) : list event :=
  screen (run_action (main (outside r) (ui r)) {| session := s; screen := [] |}).

(** The run [r], started in the session [s], gets to the Process action
    and carries it through: the button is pressed on a non-empty upload, the
    four stage functions are entered in this very run, and each of the four
    stages succeeds. *)
Definition carries_out_process (s : session_state) (r : run) : bool :=
  fully_successful r
  && if list_eq_dec string_dec (entered (run_page s r))
                    (stages_through ChainConstruction)
     then true else false.

(** A document that is read without an exception and whose text has
    white space only, or no character at all. *)
Definition blank (pdf : UploadedFile) : bool :=
  match read_file pdf with
  | Ok file_text => forallb is_space file_text
  | Raise _ => false
  end.

(** [part] occurs in [text]. *)
Definition occurs_in (part text : str) : Prop :=
  exists before after, text = before ++ part ++ after.

(** ** Sample inputs *)

Definition sample_externals : externals :=
  {| css := lit "<style></style>";
     bot_template := lit "<div class='bot'>{{MSG}}</div>";
     user_template := lit "<div class='user'>{{MSG}}</div>";
     getenv := fun _ => Some (lit "x");
     HuggingFaceEmbeddings_raises := fun _ => None;
     FAISS_from_texts_raises := fun _ _ => None;
     ChatGroq_raises := fun _ => None;
     from_llm_raises := fun _ => None;
     answer := fun _ _ => Ok (lit "$42.00") |}.

(** The same outside, with the chat endpoint down. *)
Definition offline_externals : externals :=
  {| css := css sample_externals;
     bot_template := bot_template sample_externals;
     user_template := user_template sample_externals;
     getenv := getenv sample_externals;
     HuggingFaceEmbeddings_raises := fun _ => None;
     FAISS_from_texts_raises := fun _ _ => None;
     ChatGroq_raises := fun _ => None;
     from_llm_raises := fun _ => None;
     answer := fun _ _ => Raise (LibraryError "groq") |}.

(** The same outside, with the index construction failing. *)
Definition no_index_externals : externals :=
  {| css := css sample_externals;
     bot_template := bot_template sample_externals;
     user_template := user_template sample_externals;
     getenv := getenv sample_externals;
     HuggingFaceEmbeddings_raises := fun _ => None;
     FAISS_from_texts_raises := fun _ _ => Some (LibraryError "faiss");
     ChatGroq_raises := fun _ => None;
     from_llm_raises := fun _ => None;
     answer := answer sample_externals |}.

Definition invoice_pdf : UploadedFile :=
  {| name := lit "invoice.pdf";
     PdfReader := Ok [Ok (Some (lit "Invoice Total: $42.00"))] |}.

Definition notes_pdf : UploadedFile :=
  {| name := lit "notes.pdf";
     PdfReader := Ok [Ok (Some (lit "page one" ++ nl)); Ok None;
                      Ok (Some (lit "page three"))] |}.

Definition corrupted_pdf : UploadedFile :=
  {| name := lit "corrupted.pdf";
     PdfReader := Raise (LibraryError "PyPDF2") |}.

(** A file whose second page cannot be extracted. *)
Definition broken_pdf : UploadedFile :=
  {| name := lit "broken.pdf";
     PdfReader := Ok [Ok (Some (lit "page one"));
                      Raise (LibraryError "PyPDF2")] |}.

(** A file without pages. *)
Definition pageless_pdf : UploadedFile :=
  {| name := lit "pageless.pdf"; PdfReader := Ok [] |}.

Definition scanned_pdf : UploadedFile :=
  {| name := lit "scanned.pdf";
     PdfReader := Ok [Ok (Some (lit "  ")); Ok (Some nl)] |}.

Definition sample_vectorstore : FAISS :=
  {| faiss_texts := [lit "Invoice Total: $42.00"];
     faiss_embedding :=
       {| hf_model_name := lit "sentence-transformers/all-MiniLM-L6-v2" |} |}.

Definition sample_chain : ConversationalRetrievalChain :=
  {| llm := {| groq_model_name := lit "llama3-8b-8192" |};
     retriever := sample_vectorstore;
     memory := {| memory_key := lit "chat_history"; return_messages := true |};
     combine_docs_prompt := None |}.

Definition ready_world : world :=
  {| session := {| conversation := Some (Some sample_chain);
                   chat_history := Some [] |};
     screen := [] |}.

(** 1001 times the letter [a]: longer than the window, no line break. *)
Definition long_text : str := repeat 97%N 1001.

(** A splitter with a small window, to watch the merge loop at work. *)
Definition small_splitter : Splitter.CharacterTextSplitter :=
  {| Splitter.separator := nl;
     Splitter.chunk_size := 10;
     Splitter.chunk_overlap := 5 |}.

Definition question_first_run : run :=
  {| outside := sample_externals;
     ui := {| user_question := lit "What is the invoice total?";
              pdf_docs := [];
              process_clicked := false |} |}.

Definition corrupted_upload_run : run :=
  {| outside := sample_externals;
     ui := {| user_question := [];
              pdf_docs := [corrupted_pdf; invoice_pdf];
              process_clicked := true |} |}.

Definition no_upload_run : run :=
  {| outside := sample_externals;
     ui := {| user_question := [];
              pdf_docs := [];
              process_clicked := true |} |}.

Definition invoice_run : run :=
  {| outside := sample_externals;
     ui := {| user_question := [];
              pdf_docs := [invoice_pdf];
              process_clicked := true |} |}.

Definition invoice_question_run : run :=
  {| outside := sample_externals;
     ui := {| user_question := lit "What is the invoice total?";
              pdf_docs := [invoice_pdf];
              process_clicked := false |} |}.

(** ** Vocabulary of the further properties *)

(** What one page contributes to the text of its file. *)
Definition page_text (page : result (option str)) : str :=
  match page with
  | Ok (Some t) => t
  | _ => []
  end.

(** The exception of the first page whose extraction raises. *)
Fixpoint first_raise (pages : list (result (option str))) : option exn :=
  match pages with
  | [] => None
  | Raise e :: _ => Some e
  | Ok _ :: rest => first_raise rest
  end.

Definition non_space (c : N) : bool := negb (is_space c).

(** A chunk the splitter emits: some pieces joined by [sep] and stripped,
    with something left. *)
Definition emitted (sep : str) (doc : str) : Prop :=
  exists pieces, Splitter.join_docs pieces sep = Some doc.

(** The error messages of lines 76, 196 and 201. *)
Definition dead_errors : list str :=
  [no_vectorstore_error; no_chain_error;
   cross_mark ++ lit " Cannot create conversation chain: vectorstore is missing or invalid."].

(** The history of [s'] continues the history of [s]. *)
Definition continues (s s' : session_state) : Prop :=
  exists entries, history_of s' = history_of s ++ entries.

(** [chunk] is made of whole lines: some consecutive members of [lines],
    joined by line breaks and stripped. *)
Definition whole_lines (lines : list str) (chunk : str) : Prop :=
  exists before pieces after,
    lines = before ++ pieces ++ after
    /\ pieces <> []
    /\ chunk = strip (join nl pieces).

(** The chain [get_conversation_chain] builds over an index of
    [chunks]. *)
Definition chain_over (chunks : list str) : ConversationalRetrievalChain :=
  {| llm := {| groq_model_name := lit "llama3-8b-8192" |};
     retriever :=
       {| faiss_texts := chunks;
          faiss_embedding :=
            {| hf_model_name := lit "sentence-transformers/all-MiniLM-L6-v2" |} |};
     memory := {| memory_key := lit "chat_history"; return_messages := true |};
     combine_docs_prompt := None |}.

(** The environment variables [main] copies, in the order of lines
    153-156. *)
Definition main_env_keys : list str :=
  [lit "LANGSMITH_API_KEY"; lit "LANGSMITH_TRACING_v2";
   lit "LANGSMITH_PROJECT"; lit "LANGSMITH_ENDPOINT"].

(** [m] moves the session along the relation [R], however it ends;
    [steps_at s] is the same for runs that start in the session [s]. *)
Definition steps (R : session_state -> session_state -> Prop) {A} (m : M A)
  : Prop :=
  forall w, R (session w) (session (snd (m w))).

Definition steps_at (s : session_state)
  (R : session_state -> session_state -> Prop) {A} (m : M A) : Prop :=
  forall w, session w = s -> R s (session (snd (m w))).

(** The sample outside without the LangSmith project variable. *)
Definition unconfigured_externals : externals :=
  {| css := css sample_externals;
     bot_template := bot_template sample_externals;
     user_template := user_template sample_externals;
     getenv := fun key =>
       if str_eqb key (lit "LANGSMITH_PROJECT") then None else Some (lit "x");
     HuggingFaceEmbeddings_raises := fun _ => None;
     FAISS_from_texts_raises := fun _ _ => None;
     ChatGroq_raises := fun _ => None;
     from_llm_raises := fun _ => None;
     answer := answer sample_externals |}.

(** Process pressed on a good file while the LangSmith project variable
    is missing. *)
Definition unconfigured_run : run :=
  {| outside := unconfigured_externals;
     ui := {| user_question := [];
              pdf_docs := [invoice_pdf];
              process_clicked := true |} |}.

(** A question left in the input box while a good file is uploaded and
    Process is pressed. *)
Definition blocked_run : run :=
  {| outside := sample_externals;
     ui := {| user_question := lit "What is the invoice total?";
              pdf_docs := [invoice_pdf];
              process_clicked := true |} |}.

(** * Properties *)

(** ** Python strings *)

Example split_lines :
  split (lit "ab") (lit "xabyabab") = [lit "x"; lit "y"; []; []].
Proof. reflexivity. Qed.

Example replace_msg :
  replace (lit "{{MSG}}") (lit "hi") (lit "<p>{{MSG}}</p>") = lit "<p>hi</p>".
Proof. reflexivity. Qed.

Example strip_both : strip (lit "  a b ") = lit "a b".
Proof. reflexivity. Qed.

(** ** Extractor *)

Lemma unreadable_not_empty_text pdf :
  unreadable pdf = true -> empty_text pdf = false.
Proof. unfold unreadable, empty_text. destruct (read_file pdf); congruence. Qed.

Lemma pdf_step_spec text unreadable_files empty_text_files pdf :
  pdf_step (text, unreadable_files, empty_text_files) pdf
  = (text ++ (if usable pdf then file_text_of pdf else []),
     unreadable_files ++ (if unreadable pdf then [name pdf] else []),
     empty_text_files ++ (if empty_text pdf then [name pdf] else [])).
Proof.
  unfold pdf_step, usable, unreadable, empty_text, file_text_of.
  destruct (read_file pdf) as [file_text|ex]; simpl.
  - destruct (truthy (strip file_text)); simpl; now rewrite ?app_nil_r.
  - now rewrite ?app_nil_r.
Qed.

(** The loop of [get_pdf_text] sorts the documents into its three
    accumulators, each in input order. *)
Lemma pdf_loop_spec pdf_docs : forall text unreadable_files empty_text_files,
  fold_left pdf_step pdf_docs (text, unreadable_files, empty_text_files)
  = (text ++ concat (map file_text_of (filter usable pdf_docs)),
     unreadable_files ++ map name (filter unreadable pdf_docs),
     empty_text_files ++ map name (filter empty_text pdf_docs)).
Proof.
  induction pdf_docs as [|pdf rest IH]; intros t u e.
  - simpl. now rewrite !app_nil_r.
  - cbn [fold_left filter]. rewrite pdf_step_spec, IH.
    destruct (usable pdf), (unreadable pdf), (empty_text pdf); simpl;
      now rewrite <- ?app_assoc, ?app_nil_r.
Qed.

Lemma filter_nil_iff {A} (f : A -> bool) (l : list A) :
  filter f l = [] <-> existsb f l = false.
Proof.
  induction l as [|a l IH]; simpl; [tauto|].
  destruct (f a); simpl; [split; congruence | exact IH].
Qed.

Lemma filter_all {A} (f : A -> bool) (l : list A) :
  forallb f l = true -> filter f l = l.
Proof.
  induction l as [|a l IH]; simpl; [easy|].
  destruct (f a); simpl; [intros H; now rewrite IH | discriminate].
Qed.

(** What [get_pdf_text] does, by cases on the batch. *)
Lemma get_pdf_text_cases pdf_docs w :
  get_pdf_text pdf_docs w =
  if existsb unreadable pdf_docs then
    (Ok None,
     {| session := session w;
        screen := screen w ++
          [Warning (unreadable_warning (map name (filter unreadable pdf_docs)))] |})
  else if existsb empty_text pdf_docs then
    (Ok None,
     {| session := session w;
        screen := screen w ++
          [Warning (empty_text_warning (map name (filter empty_text pdf_docs)))] |})
  else (Ok (Some (concat (map file_text_of (filter usable pdf_docs)))), w).
Proof.
  unfold get_pdf_text. rewrite pdf_loop_spec. simpl.
  destruct (existsb unreadable pdf_docs) eqn:Hu.
  - destruct (filter unreadable pdf_docs) eqn:Hf.
    + apply filter_nil_iff in Hf. congruence.
    + reflexivity.
  - apply filter_nil_iff in Hu. rewrite Hu. simpl.
    destruct (existsb empty_text pdf_docs) eqn:He.
    + destruct (filter empty_text pdf_docs) eqn:Hf.
      * apply filter_nil_iff in Hf. congruence.
      * reflexivity.
    + apply filter_nil_iff in He. rewrite He. reflexivity.
Qed.

Lemma occurs_in_join sep part parts :
  In part parts -> occurs_in part (join sep parts).
Proof.
  induction parts as [|p ps IH]; intros Hin; [destruct Hin|].
  destruct ps as [|q ps].
  - destruct Hin as [->|[]]. exists [], []. simpl. now rewrite app_nil_r.
  - change (join sep (p :: q :: ps)) with (p ++ sep ++ join sep (q :: ps)).
    destruct Hin as [->|Hin].
    + exists [], (sep ++ join sep (q :: ps)). reflexivity.
    + destruct (IH Hin) as (before & after & ->).
      exists (p ++ sep ++ before), after. now rewrite <- !app_assoc.
Qed.

Lemma occurs_in_suffix prefix part text :
  occurs_in part text -> occurs_in part (prefix ++ text).
Proof.
  intros (before & after & ->). exists (prefix ++ before), after.
  now rewrite <- !app_assoc.
Qed.

(** C1. A batch with at least one unreadable document makes [get_pdf_text]
    return [None] (no text) and show one warning and nothing else.  The text
    of the warning is the fixed sentence about unreadable PDFs followed by
    the names of the unreadable documents, all of them and no other name, in
    input order and separated by a comma and a blank; so the name of every
    unreadable document occurs in the warning, and the documents that are
    only empty-text contribute no entry to it. *)
Theorem get_pdf_text_unreadable pdf_docs w :
  existsb unreadable pdf_docs = true ->
  let shown :=
    warning_sign
    ++ lit " The following PDFs could not be read due to corruption or format issues: "
    ++ join (lit ", ") (map name (filter unreadable pdf_docs)) in
  get_pdf_text pdf_docs w =
    (Ok None,
     {| session := session w; screen := screen w ++ [Warning shown] |})
  /\ Forall (fun pdf =>
               if unreadable pdf then occurs_in (name pdf) shown
               else True)
            pdf_docs.
Proof.
  intros H shown. split.
  - now rewrite get_pdf_text_cases, H.
  - apply Forall_forall. intros pdf Hin.
    destruct (unreadable pdf) eqn:Hu; [|exact I].
    unfold shown. rewrite app_assoc. apply occurs_in_suffix.
    apply occurs_in_join. apply in_map. apply filter_In. now split.
Qed.

Lemma get_pdf_text_unreadable_sample :
  let shown :=
    warning_sign
    ++ lit " The following PDFs could not be read due to corruption or format issues: corrupted.pdf, broken.pdf" in
  get_pdf_text [corrupted_pdf; scanned_pdf; invoice_pdf; broken_pdf] blank_world =
    (Ok None,
     {| session := session_empty; screen := [Warning shown] |})
  /\ Forall (fun pdf =>
               if unreadable pdf then occurs_in (name pdf) shown
               else True)
            [corrupted_pdf; scanned_pdf; invoice_pdf; broken_pdf].
Proof.
  exact (get_pdf_text_unreadable
           [corrupted_pdf; scanned_pdf; invoice_pdf; broken_pdf]
           blank_world eq_refl).
Defined.

(** C2. A batch with no unreadable document and at least one empty-text
    document makes [get_pdf_text] return [None] (no text) and show one
    warning and nothing else.  The text of the warning is the fixed sentence
    about PDFs without extractable text followed by the names of the
    empty-text documents, all of them and no other name, in input order and
    separated by a comma and a blank; so the name of every empty-text
    document occurs in the warning. *)
Theorem get_pdf_text_empty_text pdf_docs w :
  existsb unreadable pdf_docs = false ->
  existsb empty_text pdf_docs = true ->
  let shown :=
    warning_sign
    ++ lit " The following PDFs had no extractable text: "
    ++ join (lit ", ") (map name (filter empty_text pdf_docs)) in
  get_pdf_text pdf_docs w =
    (Ok None,
     {| session := session w; screen := screen w ++ [Warning shown] |})
  /\ Forall (fun pdf =>
               if empty_text pdf then occurs_in (name pdf) shown
               else True)
            pdf_docs.
Proof.
  intros Hu He shown. split.
  - now rewrite get_pdf_text_cases, Hu, He.
  - apply Forall_forall. intros pdf Hin.
    destruct (empty_text pdf) eqn:Hempty; [|exact I].
    unfold shown. rewrite app_assoc. apply occurs_in_suffix.
    apply occurs_in_join. apply in_map. apply filter_In. now split.
Qed.

Lemma get_pdf_text_empty_text_sample :
  let shown :=
    warning_sign
    ++ lit " The following PDFs had no extractable text: scanned.pdf, pageless.pdf" in
  get_pdf_text [invoice_pdf; scanned_pdf; notes_pdf; pageless_pdf] blank_world =
    (Ok None,
     {| session := session_empty; screen := [Warning shown] |})
  /\ Forall (fun pdf =>
               if empty_text pdf then occurs_in (name pdf) shown
               else True)
            [invoice_pdf; scanned_pdf; notes_pdf; pageless_pdf].
Proof.
  exact (get_pdf_text_empty_text
           [invoice_pdf; scanned_pdf; notes_pdf; pageless_pdf]
           blank_world eq_refl eq_refl).
Defined.

Lemma all_usable_texts pdf_docs : forall texts,
  Forall2 (fun pdf t => read_file pdf = Ok t /\ truthy (strip t) = true)
          pdf_docs texts ->
  forallb usable pdf_docs = true /\ map file_text_of pdf_docs = texts.
Proof.
  induction pdf_docs as [|pdf rest IH]; intros texts H; inversion H; subst.
  - now split.
  - destruct (IH _ H4) as [Hall Hmap]. destruct H2 as [Hread Hstrip].
    simpl. unfold usable at 1, unreadable, empty_text, file_text_of.
    rewrite Hread, Hstrip. simpl. split; [assumption | now f_equal].
Qed.

Lemma usable_excludes pdf_docs :
  forallb usable pdf_docs = true ->
  existsb unreadable pdf_docs = false /\ existsb empty_text pdf_docs = false.
Proof.
  induction pdf_docs as [|pdf rest IH]; simpl; [easy|].
  unfold usable at 1. intros H.
  apply andb_true_iff in H as [H1 H2]. apply andb_true_iff in H1 as [Hu He].
  apply negb_true_iff in Hu, He. rewrite Hu, He. simpl. now apply IH.
Qed.

(** C3. When every document of the batch is read without an exception and
    its text has a non-whitespace character, [get_pdf_text] returns the
    texts of the documents concatenated in input order, nothing in between,
    and shows nothing. *)
Theorem get_pdf_text_concat pdf_docs texts w :
  Forall2 (fun pdf t => read_file pdf = Ok t /\ truthy (strip t) = true)
          pdf_docs texts ->
  get_pdf_text pdf_docs w = (Ok (Some (concat texts)), w).
Proof.
  intros H. apply all_usable_texts in H as [Hall Hmap].
  rewrite get_pdf_text_cases.
  destruct (usable_excludes _ Hall) as [Hu He]. rewrite Hu, He.
  now rewrite (filter_all _ _ Hall), Hmap.
Qed.

Lemma get_pdf_text_concat_sample :
  get_pdf_text [invoice_pdf; notes_pdf] blank_world
  = (Ok (Some (lit "Invoice Total: $42.00page one" ++ nl ++ lit "page three")),
     blank_world).
Proof.
  apply (@get_pdf_text_concat [invoice_pdf; notes_pdf]
           [lit "Invoice Total: $42.00";
            lit "page one" ++ nl ++ lit "page three"]
           blank_world).
  repeat constructor.
Defined.

(** ** Chunker *)

Lemma join_cons sep p ps :
  ps <> [] -> join sep (p :: ps) = p ++ sep ++ join sep ps.
Proof. destruct ps; [congruence | reflexivity]. Qed.

Lemma join_snoc sep ps d :
  join sep (ps ++ [d]) = if is_nil ps then d else join sep ps ++ sep ++ d.
Proof.
  induction ps as [|p ps IH]; [reflexivity|].
  cbn [app]. rewrite join_cons by (destruct ps; discriminate).
  rewrite IH. destruct ps; simpl.
  - reflexivity.
  - now rewrite <- !app_assoc.
Qed.

Lemma len_app a b : len (a ++ b) = (len a + len b)%Z.
Proof. unfold len. rewrite length_app. lia. Qed.

Lemma len_nonneg a : (0 <= len a)%Z.
Proof. unfold len. lia. Qed.

(** Appending pieces never shortens the joined text. *)
Lemma len_join_prefix sep ps rest :
  (len (join sep ps) <= len (join sep (ps ++ rest)))%Z.
Proof.
  induction rest as [|d rest IH] using rev_ind.
  - rewrite app_nil_r. lia.
  - rewrite app_assoc, join_snoc.
    destruct (is_nil (ps ++ rest)) eqn:E.
    + destruct ps; [|discriminate]. simpl. apply len_nonneg.
    + rewrite !len_app.
      pose proof (len_nonneg sep). pose proof (len_nonneg d). lia.
Qed.

(** Dropping pieces never lengthens the joined text. *)
Lemma len_join_filter sep (f : str -> bool) ps :
  (len (join sep (filter f ps)) <= len (join sep ps))%Z.
Proof.
  induction ps as [|p ps IH]; [simpl; lia|].
  cbn [filter]. destruct (f p).
  - destruct ps as [|q ps]; [simpl; lia|].
    rewrite (join_cons sep p (ps := q :: ps)) by discriminate.
    destruct (filter f (q :: ps)) as [|r rs] eqn:E.
    + change (join sep [p]) with p. rewrite !len_app.
      pose proof (len_nonneg sep).
      pose proof (len_nonneg (join sep (q :: ps))). lia.
    + rewrite join_cons by discriminate. rewrite !len_app. lia.
  - destruct ps as [|q ps]; [simpl; apply len_nonneg|].
    rewrite (join_cons sep p (ps := q :: ps)) by discriminate.
    rewrite !len_app. pose proof (len_nonneg sep). pose proof (len_nonneg p).
    lia.
Qed.

Lemma split_go_not_nil sep skip cur s : split_go sep skip cur s <> [].
Proof.
  revert skip cur. induction s as [|c s IH]; intros skip cur; simpl.
  - discriminate.
  - destruct skip; [|apply IH].
    destruct (starts_with sep (c :: s)); [discriminate | apply IH].
Qed.

(** Splitting at a one-character separator and joining again gives the
    text back. *)
Lemma join_split_go c s : forall cur,
  join [c] (split_go [c] 0 cur s) = rev cur ++ s.
Proof.
  induction s as [|x s IH]; intros cur.
  - simpl. now rewrite app_nil_r.
  - cbn [split_go starts_with]. destruct (N.eqb_spec c x) as [->|Hne]; cbn [andb].
    + cbn [length pred]. rewrite join_cons by apply split_go_not_nil.
      rewrite IH. reflexivity.
    + rewrite IH. simpl. now rewrite <- app_assoc.
Qed.

Lemma join_split c s : join [c] (split [c] s) = s.
Proof. unfold split. now rewrite join_split_go. Qed.

(** A text without the separator is a single piece. *)
Lemma split_go_absent c s : forall cur,
  ~ In c s -> split_go [c] 0 cur s = [rev cur ++ s].
Proof.
  induction s as [|x s IH]; intros cur Hin.
  - simpl. now rewrite app_nil_r.
  - cbn [split_go starts_with]. destruct (N.eqb_spec c x) as [->|Hne].
    + exfalso. apply Hin. now left.
    + cbn [andb]. rewrite IH by (intros H; apply Hin; now right).
      simpl. now rewrite <- app_assoc.
Qed.

Section MergeFits.

Variable self : Splitter.CharacterTextSplitter.
Variable sep : str.

(** As long as everything joined fits into [chunk_size], the merge loop
    only accumulates: no chunk is emitted and nothing is popped. *)
Lemma merge_loop_fits rest : forall current_doc,
  (len (join sep (current_doc ++ rest)) <= Splitter.chunk_size self)%Z ->
  Splitter.merge_loop self sep rest ([], current_doc, len (join sep current_doc))
  = Ok ([], current_doc ++ rest, len (join sep (current_doc ++ rest))).
Proof.
  induction rest as [|d rest IH]; intros cd Hfit.
  - simpl. now rewrite app_nil_r.
  - cbn [Splitter.merge_loop]. unfold Splitter.merge_step.
    assert (Hd : (len (join sep (cd ++ [d])) <= Splitter.chunk_size self)%Z).
    { pose proof (len_join_prefix sep (cd ++ [d]) rest) as Hp.
      rewrite <- app_assoc in Hp. simpl in Hp. lia. }
    assert (Hno : Splitter.overflows self cd (len (join sep cd)) (len d) (len sep) = false).
    { unfold Splitter.overflows, Splitter.sep_if. apply Z.ltb_ge.
      rewrite join_snoc in Hd. destruct (is_nil cd) eqn:E; simpl.
      - destruct cd; [|discriminate]. simpl. change (len []) with 0%Z. lia.
      - rewrite !len_app in Hd. lia. }
    rewrite Hno.
    replace (len (join sep cd) + len d
             + Splitter.sep_if (1 <? length (cd ++ [d]))%nat (len sep))%Z
      with (len (join sep (cd ++ [d]))).
    + rewrite IH; rewrite <- app_assoc; [reflexivity | exact Hfit].
    + rewrite join_snoc. unfold Splitter.sep_if. rewrite length_app. simpl.
      destruct cd as [|p cd]; simpl.
      * change (len []) with 0%Z. lia.
      * replace (1 <? S (length cd + 1))%nat with true
          by (symmetry; apply Nat.ltb_lt; lia).
        rewrite !len_app. lia.
Qed.

Lemma merge_splits_fits splits :
  (len (join sep splits) <= Splitter.chunk_size self)%Z ->
  Splitter.merge_splits self splits sep
  = Ok (match strip (join sep splits) with [] => [] | t => [t] end).
Proof.
  intros Hfit. unfold Splitter.merge_splits.
  change 0%Z with (len (join sep [])).
  rewrite merge_loop_fits by exact Hfit. simpl app.
  unfold Splitter.join_docs. now destruct (strip (join sep splits)).
Qed.

End MergeFits.

Example merge_small_window :
  Splitter.split_text small_splitter
    (lit "aaaa" ++ nl ++ lit "bbbb" ++ nl ++ nl ++ lit "cccc" ++ nl ++ lit "dddd")
  = Ok [lit "aaaa" ++ nl ++ lit "bbbb";
        lit "bbbb" ++ nl ++ lit "cccc";
        lit "cccc" ++ nl ++ lit "dddd"].
Proof. reflexivity. Qed.

(** [get_text_chunks] on a text that fits the window: one chunk at most,
    the lines of the text without the empty ones, joined and stripped. *)
Lemma get_text_chunks_fits text :
  (length text <= 1000)%nat ->
  get_text_chunks text
  = Ok (match strip (join nl (filter truthy (split nl text))) with
        | [] => []
        | t => [t]
        end).
Proof.
  intros Hlen. unfold get_text_chunks.
  destruct text as [|c text]; [reflexivity|]. cbn [truthy negb].
  unfold Splitter.split_text. apply merge_splits_fits.
  cbn [text_splitter Splitter.separator Splitter.chunk_size].
  pose proof (len_join_filter nl truthy (split nl (c :: text))) as Hf.
  unfold nl in *. rewrite join_split in Hf. unfold len in *. lia.
Qed.

(** C5 (as amended). A text longer than 1000 characters without a line
    break is not cut: [get_text_chunks] returns at most one chunk, the whole
    text stripped of the white space around it, and no chunk when the text is
    white space only.  When the text has no white space at either end, that
    one chunk is the text itself, with its more than 1000 characters. *)
Theorem get_text_chunks_unbroken text :
  (1000 < length text)%nat ->
  ~ In 10%N text ->
  get_text_chunks text
  = Ok (match strip text with [] => [] | t => [t] end)
  /\ (strip text = text ->
      get_text_chunks text = Ok [text]
      /\ Forall (fun chunk => (1000 < length chunk)%nat) [text]).
Proof.
  intros Hlen Hnl.
  assert (H : get_text_chunks text
              = Ok (match strip text with [] => [] | t => [t] end)).
  { unfold get_text_chunks.
    destruct text as [|c text]; [simpl in Hlen; lia|]. cbn [truthy negb].
    unfold Splitter.split_text, split.
    cbn [text_splitter Splitter.separator]. unfold nl.
    rewrite split_go_absent by exact Hnl. cbn [rev app filter truthy].
    unfold Splitter.merge_splits. cbn [Splitter.merge_loop].
    unfold Splitter.merge_step.
    destruct (Splitter.overflows _ _ _ _ _); cbn [is_nil negb app];
      unfold Splitter.join_docs; cbn [join];
      now destruct (strip (c :: text)). }
  split; [exact H|].
  intros Hstrip. rewrite H, Hstrip. split.
  - destruct text; [simpl in Hlen; lia | reflexivity].
  - constructor; [exact Hlen | constructor].
Qed.

Lemma get_text_chunks_unbroken_sample :
  get_text_chunks long_text = Ok [long_text]
  /\ Forall (fun chunk => (1000 < length chunk)%nat) [long_text].
Proof.
  refine (proj2 (@get_text_chunks_unbroken long_text _ _) _).
  - vm_compute. lia.
  - unfold long_text. intros H. apply repeat_spec in H. discriminate.
  - vm_compute. reflexivity.
Defined.

(** C5, refuted as stated: the 1001-character text of [a]s comes back as
    one chunk of 1001 characters, where the claim promises chunks of at most
    1000 characters and [ceil((1001 - 200) / 800) = 2] of them. *)
Lemma get_text_chunks_long_text_uncut :
  (1000 < length long_text)%nat /\
  ~ In 10%N long_text /\
  exists chunks,
    get_text_chunks long_text = Ok chunks /\
    ~ Forall (fun chunk => (length chunk <= 1000)%nat) chunks /\
    Z.of_nat (length chunks) <> ((len long_text - 200 + 799) / 800)%Z.
Proof.
  split; [vm_compute; lia|]. split.
  - unfold long_text. intros H. apply repeat_spec in H. discriminate.
  - exists [long_text]. split; [now vm_compute|]. split.
    + intros H. inversion H as [|? ? Hc _]; subst.
      vm_compute in Hc. lia.
    + vm_compute. discriminate.
Qed.

(** C6 (as amended). A non-empty text shorter than 1000 characters gives
    at most one chunk: its non-empty lines joined by line breaks, stripped of
    the white space around.  The chunk is the text itself when the text has
    no white space at either end and no empty line. *)
Theorem get_text_chunks_short text :
  text <> [] ->
  (length text < 1000)%nat ->
  get_text_chunks text
  = Ok (match strip (join nl (filter truthy (split nl text))) with
        | [] => []
        | t => [t]
        end)
  /\ (strip text = text ->
      forallb truthy (split nl text) = true ->
      get_text_chunks text = Ok [text]).
Proof.
  intros Hne Hlen.
  assert (H : get_text_chunks text
              = Ok (match strip (join nl (filter truthy (split nl text))) with
                    | [] => []
                    | t => [t]
                    end)) by (apply get_text_chunks_fits; lia).
  split; [exact H|].
  intros Hstrip Hlines. rewrite H, (filter_all _ _ Hlines).
  unfold nl at 1 2. rewrite join_split, Hstrip.
  destruct text; [congruence | reflexivity].
Qed.

Lemma get_text_chunks_short_sample :
  get_text_chunks (lit "Invoice Total: $42.00")
  = Ok [lit "Invoice Total: $42.00"].
Proof.
  refine (proj2 (@get_text_chunks_short (lit "Invoice Total: $42.00") _ _) _ _).
  - discriminate.
  - vm_compute. lia.
  - reflexivity.
  - reflexivity.
Defined.

(** C6, refuted as stated: a short text that starts with a blank loses it,
    and a short text with an empty line loses the line. *)
Lemma get_text_chunks_short_trims :
  get_text_chunks (lit " a") = Ok [lit "a"] /\
  get_text_chunks (lit " a") <> Ok [lit " a"] /\
  get_text_chunks (lit "a" ++ nl ++ nl ++ lit "b") = Ok [lit "a" ++ nl ++ lit "b"] /\
  get_text_chunks nl = Ok [].
Proof. repeat split; try reflexivity. vm_compute. discriminate. Qed.

(** ** Answerer *)

(** C4 (the claim fails on the code). The chain that
    [get_conversation_chain] returns was built from the model client, the
    retriever and the memory alone; the prompt with the system instruction
    that the function prepares is not handed to it, so the prompt in force
    is the library's default one, whatever that is. *)
Theorem get_conversation_chain_prompt_unused ext vectorstore w chain w' :
  get_conversation_chain ext (Some vectorstore) w = (Ok (Some chain), w') ->
  combine_docs_prompt chain = None
  /\ (forall library_default,
        prompt_in_force library_default chain = library_default)
  /\ chain = {| llm := {| groq_model_name := lit "llama3-8b-8192" |};
                retriever := vectorstore;
                memory := {| memory_key := lit "chat_history";
                             return_messages := true |};
                combine_docs_prompt := None |}.
Proof.
  unfold get_conversation_chain, bind, of_result, construct, ret.
  destruct (ChatGroq_raises ext _); [discriminate|].
  destruct (from_llm_raises ext _); [discriminate|].
  intros H. injection H as <- _.
  unfold prompt_in_force. simpl. auto.
Qed.

Lemma get_conversation_chain_prompt_unused_sample :
  get_conversation_chain sample_externals (Some sample_vectorstore) blank_world
    = (Ok (Some sample_chain), blank_world)
  /\ prompt_in_force [] sample_chain <> prompt.
Proof.
  split; [reflexivity|].
  destruct (get_conversation_chain_prompt_unused
              sample_externals sample_vectorstore blank_world eq_refl)
    as (_ & H & _).
  rewrite H. discriminate.
Defined.

(** ** Question handling *)

Lemma emit_all_spec evs : forall w,
  emit_all evs w
  = (Ok tt, {| session := session w; screen := screen w ++ evs |}).
Proof.
  induction evs as [|ev evs IH]; intros [s scr].
  - simpl. now rewrite app_nil_r.
  - cbn [emit_all]. unfold bind, emit. rewrite IH. simpl.
    now rewrite <- app_assoc.
Qed.

(** C10. [handle_userinput] appends the user's question to the chat
    history and writes the transcript, the new question included, before it
    calls the chain.  When the call returns a reply, the history has grown by
    the user entry followed by the bot entry, in that order; when the call
    raises (the chain raises, or there is no chain to call), the exception
    leaves [handle_userinput] and the history keeps the user entry. *)
Theorem handle_userinput_history ext user_question w :
  let asked := history_of (session w) ++ [(lit "user", user_question)] in
  let shown :=
    screen w ++ map (render ext) asked
    ++ [PlaceholderMarkdown typing_html; Sleep 1500] in
  let kept e called :=
    (@Raise unit e,
     {| session := {| conversation := conversation (session w);
                      chat_history := Some asked |};
        screen := shown ++ called |}) in
  handle_userinput ext user_question w =
  match conversation (session w) with
  | Some (Some chain) =>
      match answer ext chain user_question with
      | Ok bot_reply =>
          (Ok tt,
           {| session :=
                {| conversation := conversation (session w);
                   chat_history := Some (asked ++ [(lit "bot", bot_reply)]) |};
              screen :=
                shown
                ++ [Invoke user_question; PlaceholderEmpty;
                    Write (replace (lit "{{MSG}}") bot_reply (bot_template ext))] |})
      | Raise e => kept e [Invoke user_question]
      end
  | Some None => kept TypeError []
  | None => kept AttributeError []
  end.
Proof.
  destruct w as [[conv hist] scr]. cbv zeta. cbn [session screen conversation].
  assert (Hrun :
    handle_userinput ext user_question
      {| session := {| conversation := conv; chat_history := hist |};
         screen := scr |}
    = bind (emit_all (map (render ext)
                      (history_of {| conversation := conv;
                                     chat_history := hist |}
                       ++ [(lit "user", user_question)])))
        (fun _ =>
           emit (PlaceholderMarkdown typing_html) ;;
           emit (Sleep 1500) ;;
           bot_reply <- ask ext user_question ;;
           emit PlaceholderEmpty ;;
           append_history (lit "bot", bot_reply) ;;
           emit (Write (replace (lit "{{MSG}}") bot_reply (bot_template ext))))
        {| session :=
             {| conversation := conv;
                chat_history :=
                  Some (history_of {| conversation := conv;
                                      chat_history := hist |}
                        ++ [(lit "user", user_question)]) |};
           screen := scr |}).
  { destruct hist; reflexivity. }
  rewrite Hrun. unfold bind at 1. rewrite emit_all_spec.
  cbv [bind emit ask append_history get_session put_session of_result raise
       session screen conversation chat_history].
  destruct conv as [[chain|]|].
  - destruct (answer ext chain user_question) as [bot_reply|e];
      repeat rewrite <- app_assoc; reflexivity.
  - repeat rewrite <- app_assoc. rewrite app_nil_r. reflexivity.
  - repeat rewrite <- app_assoc. rewrite app_nil_r. reflexivity.
Qed.

(** With the chat endpoint down, the question stays in the history. *)
Example question_without_answer :
  handle_userinput offline_externals (lit "What is the invoice total?") ready_world
  = (Raise (LibraryError "groq"),
     {| session :=
          {| conversation := Some (Some sample_chain);
             chat_history := Some [(lit "user", lit "What is the invoice total?")] |};
        screen :=
          [Write (lit "<div class='user'>What is the invoice total?</div>");
           PlaceholderMarkdown typing_html; Sleep 1500;
           Invoke (lit "What is the invoice total?")] |}).
Proof. vm_compute. reflexivity. Qed.

(** ** Session controller *)

(** C9. Pressing Process with nothing uploaded shows the "No PDF uploaded"
    error and ends the action there: none of the four stage functions is
    entered and the session is what it was. *)
Theorem process_no_upload ext w :
  process ext [] w
  = (Ok tt,
     {| session := session w;
        screen := screen w ++
          [Error (cross_mark ++ lit " No PDF uploaded. Please upload at least one PDF before processing.")] |})
  /\ entered (screen (snd (process ext [] w))) = entered (screen w).
Proof.
  split; [reflexivity|].
  simpl. unfold entered. rewrite flat_map_app. simpl. now rewrite app_nil_r.
Qed.

Lemma get_vectorstore_cases ext text_chunks :
  text_chunks <> [] ->
  (exists e, get_vectorstore ext text_chunks = Raise e)
  \/ exists vectorstore, get_vectorstore ext text_chunks = Ok (Some vectorstore).
Proof.
  intros Hne. unfold get_vectorstore, construct.
  destruct text_chunks; [congruence|]. cbn [is_nil].
  destruct (HuggingFaceEmbeddings_raises ext _); [left; eauto|].
  destruct (FAISS_from_texts_raises ext _ _); [left; eauto | right; eauto].
Qed.

(** With an index at hand, chain construction shows nothing: it returns a
    chain or raises. *)
Lemma get_conversation_chain_cases ext vectorstore w :
  (exists e, get_conversation_chain ext (Some vectorstore) w = (Raise e, w))
  \/ exists chain, get_conversation_chain ext (Some vectorstore) w = (Ok (Some chain), w).
Proof.
  unfold get_conversation_chain, bind, of_result, construct, ret.
  destruct (ChatGroq_raises ext _); [left; eauto|].
  destruct (from_llm_raises ext _); [left; eauto | right; eauto].
Qed.

Lemma get_conversation_chain_fst ext vectorstore w :
  fst (get_conversation_chain ext (Some vectorstore) w)
  = fst (get_conversation_chain ext (Some vectorstore) blank_world).
Proof.
  unfold get_conversation_chain, bind, of_result, construct, ret.
  destruct (ChatGroq_raises ext _); [reflexivity|].
  destruct (from_llm_raises ext _); reflexivity.
Qed.

Ltac halted :=
  cbv [bind emit ret raise of_result session screen truthy negb is_nil
       is_none];
  rewrite <- ?app_assoc;
  split; [reflexivity|]; split; [reflexivity|]; split; [reflexivity|];
  repeat constructor.

Lemma process_failure_run ext pdf_docs w st :
  pdf_docs <> [] ->
  failed_stage ext pdf_docs = Some st ->
  exists shown last,
    run_action (process ext pdf_docs) w
    = {| session := session w; screen := screen w ++ shown ++ [last] |}
    /\ is_error last = true
    /\ entered shown = stages_through st
    /\ Forall (fun ev => is_success ev = false) shown.
Proof.
  intros Hne. destruct w as [s scr].
  unfold failed_stage, process, run_action.
  destruct pdf_docs as [|pdf rest]; [congruence|]. cbn [is_nil].
  unfold bind at 1. unfold emit at 1. cbn [session screen].
  unfold bind at 1. rewrite !get_pdf_text_cases.
  set (docs := pdf :: rest).
  destruct (existsb unreadable docs).
  { cbn [fst]. intros [= <-]. eexists [_; _], _. halted. }
  destruct (existsb empty_text docs).
  { cbn [fst]. intros [= <-]. eexists [_; _], _. halted. }
  cbn [fst]. cbv beta iota.
  destruct (concat (map file_text_of (filter usable docs))) as [|c raw_text].
  { cbn [fst]. intros [= <-]. eexists [_], _. halted. }
  cbn [truthy negb]. unfold bind at 1, emit at 1. cbn [session screen].
  unfold bind at 1, of_result at 1.
  destruct (get_text_chunks (c :: raw_text)) as [[|chunk text_chunks]|e].
  { cbn [fst]. intros [= <-]. eexists [_; _], _. halted. }
  2:{ cbn [fst]. intros [= <-]. eexists [_; _], _. halted. }
  cbn [is_nil]. unfold bind at 1, emit at 1. cbn [session screen].
  unfold bind at 1, of_result at 1.
  destruct (get_vectorstore_cases ext (text_chunks := chunk :: text_chunks))
    as [[e ->]|[vectorstore ->]]; [discriminate | |].
  { cbn [fst]. intros [= <-]. eexists [_; _; _], _. halted. }
  cbn [is_none]. unfold bind at 1, emit at 1. cbn [session screen].
  unfold bind at 1.
  rewrite <- (get_conversation_chain_fst ext vectorstore
    {| session := s;
       screen := (((scr ++ [Enter "get_pdf_text"]) ++ [Enter "get_text_chunks"])
                  ++ [Enter "get_vectorstore"]) ++ [Enter "get_conversation_chain"] |}).
  destruct (get_conversation_chain_cases ext vectorstore
    {| session := s;
       screen := (((scr ++ [Enter "get_pdf_text"]) ++ [Enter "get_text_chunks"])
                  ++ [Enter "get_vectorstore"]) ++ [Enter "get_conversation_chain"] |})
    as [[e ->]|[chain ->]].
  { cbn [fst]. intros [= <-]. eexists [_; _; _; _], _. halted. }
  cbn [fst]. discriminate.
Qed.

(** C7. When the Process action runs on a non-empty upload and one of the
    four stages fails (it returns nothing usable, or it raises), the page
    ends with an error message ([st.error], or Streamlit's report of the
    uncaught exception), the stage functions entered are those up to the
    failing stage and no further, no success message is shown, and the
    session, its conversation chain included, is what it was before. *)
Theorem process_failure_keeps_session ext pdf_docs w st :
  pdf_docs <> [] ->
  failed_stage ext pdf_docs = Some st ->
  session (run_action (process ext pdf_docs) w) = session w
  /\ exists shown last,
       screen (run_action (process ext pdf_docs) w)
       = screen w ++ shown ++ [last]
       /\ is_error last = true
       /\ entered shown = stages_through st
       /\ Forall (fun ev => is_success ev = false) shown.
Proof.
  intros Hne Hfail.
  destruct (process_failure_run ext w Hne Hfail)
    as (shown & last & -> & Herr & Hent & Hsucc).
  split; [reflexivity|]. exists shown, last. auto.
Qed.

Lemma process_failure_keeps_session_sample :
  session (run_action (process no_index_externals [invoice_pdf]) ready_world)
  = session ready_world
  /\ exists shown last,
       screen (run_action (process no_index_externals [invoice_pdf]) ready_world)
       = screen ready_world ++ shown ++ [last]
       /\ is_error last = true
       /\ entered shown = stages_through Indexing
       /\ Forall (fun ev => is_success ev = false) shown.
Proof.
  apply (@process_failure_keeps_session
           no_index_externals [invoice_pdf] ready_world Indexing).
  - discriminate.
  - reflexivity.
Defined.

(** *** Session invariants *)

Section Keeps.

Variable P : session_state -> Prop.

Lemma keeps_ret {A} (a : A) : keeps P (ret a).
Proof. intros w H. exact H. Qed.

Lemma keeps_raise {A} e : keeps P (@raise A e).
Proof. intros w H. exact H. Qed.

Lemma keeps_of_result {A} (r : result A) : keeps P (of_result r).
Proof. intros w H. exact H. Qed.

Lemma keeps_emit ev : keeps P (emit ev).
Proof. intros w H. exact H. Qed.

Lemma keeps_put s : P s -> keeps P (put_session s).
Proof. intros Hs w _. exact Hs. Qed.

Lemma keeps_bind {A B} (m : M A) (k : A -> M B) :
  keeps P m -> (forall a, keeps P (k a)) -> keeps P (bind m k).
Proof.
  intros Hm Hk w H. unfold bind. specialize (Hm w H).
  destruct (m w) as [[a|e] w']; simpl in *.
  - now apply Hk.
  - exact Hm.
Qed.

Lemma keeps_get {B} (k : session_state -> M B) :
  (forall s, P s -> keeps P (k s)) -> keeps P (bind get_session k).
Proof. intros Hk w H. unfold bind, get_session. now apply Hk. Qed.

Lemma keeps_emit_all evs : keeps P (emit_all evs).
Proof. intros w H. now rewrite emit_all_spec. Qed.

End Keeps.

Lemma idle_history s history :
  idle s -> idle {| conversation := conversation s; chat_history := history |}.
Proof. unfold idle, chain_of. simpl. auto. Qed.

Lemma keeps_idle_append_history entry : keeps idle (append_history entry).
Proof.
  apply keeps_get. intros s Hs. destruct (chat_history s).
  - apply keeps_put. now apply idle_history.
  - apply keeps_raise.
Qed.

Lemma keeps_idle_ask ext q : keeps idle (ask ext q).
Proof.
  apply keeps_get. intros s Hs. destruct (conversation s) as [[chain|]|].
  - apply keeps_bind; [apply keeps_emit | intros; apply keeps_of_result].
  - apply keeps_raise.
  - apply keeps_raise.
Qed.

(** Handling a question never binds a chain. *)
Lemma keeps_idle_handle_userinput ext q : keeps idle (handle_userinput ext q).
Proof.
  unfold handle_userinput.
  apply keeps_get. intros s Hs. apply keeps_bind.
  { destruct (chat_history s).
    - apply keeps_ret.
    - apply keeps_put. now apply idle_history. }
  intros _. apply keeps_bind; [apply keeps_idle_append_history|].
  intros _. apply keeps_get. intros s' Hs'.
  destruct (chat_history s'); [|apply keeps_raise].
  apply keeps_bind; [apply keeps_emit_all|]. intros _.
  apply keeps_bind; [apply keeps_emit|]. intros _.
  apply keeps_bind; [apply keeps_emit|]. intros _.
  apply keeps_bind; [apply keeps_idle_ask|]. intros bot_reply.
  apply keeps_bind; [apply keeps_emit|]. intros _.
  apply keeps_bind; [apply keeps_idle_append_history|]. intros _.
  apply keeps_emit.
Qed.

Lemma session_run_action m w : session (run_action m w) = session (snd (m w)).
Proof. unfold run_action. now destruct (m w) as [[a|e] w']. Qed.

Lemma keeps_idle_process ext pdf_docs :
  is_nil pdf_docs = true \/ failed_stage ext pdf_docs <> None ->
  keeps idle (process ext pdf_docs).
Proof.
  intros H w Hw. destruct pdf_docs as [|pdf rest].
  - exact Hw.
  - destruct H as [H|H]; [discriminate|].
    destruct (failed_stage ext (pdf :: rest)) as [st|] eqn:Hst; [|congruence].
    rewrite <- session_run_action.
    destruct (@process_failure_run ext (pdf :: rest) w st) as (? & ? & -> & _);
      [discriminate | exact Hst | exact Hw].
Qed.

Lemma keeps_idle_copy_env ext key : keeps idle (copy_env ext key).
Proof. unfold copy_env. destruct (getenv ext key); [apply keeps_ret | apply keeps_raise]. Qed.

(** A run that is not a fully successful Process leaves an idle session
    idle. *)
Lemma rerun_idle s r : idle s -> fully_successful r = false -> idle (rerun s r).
Proof.
  intros Hs Hr. unfold rerun. rewrite session_run_action.
  revert Hs.
  change (idle s) with (idle (session {| session := s; screen := [] |})).
  generalize {| session := s; screen := [] |}.
  change (keeps idle (main (outside r) (ui r))).
  unfold main.
  do 4 (apply keeps_bind; [apply keeps_idle_copy_env | intros _]).
  apply keeps_bind; [apply keeps_emit | intros _].
  apply keeps_get. intros s0 Hs0. apply keeps_bind.
  { destruct (is_none (conversation s0)); [|apply keeps_ret].
    apply keeps_put. reflexivity. }
  intros _. apply keeps_get. intros s1 Hs1. apply keeps_bind.
  { destruct (is_none (chat_history s1)); [|apply keeps_ret].
    apply keeps_put. now apply idle_history. }
  intros _.
  apply keeps_bind; [apply keeps_emit | intros _].
  apply keeps_bind; [apply keeps_emit | intros _].
  apply keeps_bind.
  { destruct (truthy _); [apply keeps_idle_handle_userinput | apply keeps_ret]. }
  intros _. apply keeps_bind; [apply keeps_emit | intros _].
  unfold fully_successful in Hr.
  destruct (process_clicked (ui r)); [|apply keeps_ret].
  apply keeps_idle_process.
  destruct (is_nil (pdf_docs (ui r))); [now left | right].
  destruct (failed_stage _ _); [discriminate | discriminate Hr].
Qed.

Lemma fold_rerun_idle runs : forall s,
  idle s ->
  Forall (fun r => fully_successful r = false) runs ->
  idle (fold_left rerun runs s).
Proof.
  induction runs as [|r runs IH]; intros s Hs Hall; [exact Hs|].
  inversion Hall; subst. simpl. apply IH; [now apply rerun_idle | assumption].
Qed.

(** A fully successful Process binds the chain, and a question asked
    afterwards is answered and recorded. *)
Example invoice_session :
  session_after [invoice_run; invoice_question_run]
  = {| conversation := Some (Some sample_chain);
       chat_history := Some [(lit "user", lit "What is the invoice total?");
                             (lit "bot", lit "$42.00")] |}.
Proof. vm_compute. reflexivity. Qed.

(** A question asked before any document was processed raises in
    [handle_userinput]: the user entry stays in the history and the rest of
    the script is not run. *)
Example question_before_process :
  main sample_externals (ui question_first_run) blank_world
  = (Raise TypeError,
     {| session :=
          {| conversation := Some None;
             chat_history := Some [(lit "user", lit "What is the invoice total?")] |};
        screen :=
          [Write (lit "<style></style>");
           Header (lit "TalkDocs :books:");
           Subheader (lit "Chat with multiple PDFs");
           Write (lit "<div class='user'>What is the invoice total?</div>");
           PlaceholderMarkdown typing_html;
           Sleep 1500] |}).
Proof. vm_compute. reflexivity. Qed.

(** * Further properties of the code *)

(** ** Stripping *)

Lemma lstrip_all_space s : lstrip s = [] <-> forallb is_space s = true.
Proof.
  induction s as [|c s IH]; simpl; [tauto|].
  destruct (is_space c); simpl; [exact IH | split; discriminate].
Qed.

Lemma lstrip_head s c r : lstrip s = c :: r -> is_space c = false.
Proof.
  induction s as [|x s IH]; simpl; [discriminate|].
  destruct (is_space x) eqn:E; [exact IH | now intros [= <- _]].
Qed.

Lemma lstrip_fixed c r : is_space c = false -> lstrip (c :: r) = c :: r.
Proof. intros H. simpl. now rewrite H. Qed.

Lemma lstrip_idem s : lstrip (lstrip s) = lstrip s.
Proof.
  destruct (lstrip s) as [|c r] eqn:E; [reflexivity|].
  apply lstrip_fixed. exact (lstrip_head s E).
Qed.

Lemma lstrip_snoc a c : is_space c = false -> lstrip (a ++ [c]) = lstrip a ++ [c].
Proof.
  intros H. induction a as [|x a IH]; simpl.
  - now rewrite H.
  - destruct (is_space x); [exact IH | reflexivity].
Qed.

Lemma rstrip_cons c r : is_space c = false -> rstrip (c :: r) = c :: rstrip r.
Proof.
  intros H. unfold rstrip. simpl rev. rewrite (lstrip_snoc (rev r) c H).
  now rewrite rev_app_distr.
Qed.

Lemma rstrip_idem s : rstrip (rstrip s) = rstrip s.
Proof. unfold rstrip. now rewrite rev_involutive, lstrip_idem. Qed.

(** [strip] by cases on what [lstrip] leaves. *)
Lemma strip_cases s :
  (lstrip s = [] /\ strip s = [])
  \/ exists c r, lstrip s = c :: r /\ is_space c = false
                 /\ strip s = c :: rstrip r.
Proof.
  unfold strip. destruct (lstrip s) as [|c r] eqn:E.
  - left. now split.
  - right. exists c, r. pose proof (lstrip_head s E) as Hc.
    repeat split; [exact Hc | now apply rstrip_cons].
Qed.

Lemma strip_idem s : strip (strip s) = strip s.
Proof.
  destruct (strip_cases s) as [[_ ->]|(c & r & _ & Hc & ->)]; [reflexivity|].
  unfold strip. rewrite (lstrip_fixed c (rstrip r) Hc), (rstrip_cons c (rstrip r) Hc).
  now rewrite rstrip_idem.
Qed.

Lemma length_lstrip s : (length (lstrip s) <= length s)%nat.
Proof.
  induction s as [|c s IH]; simpl; [lia|].
  destruct (is_space c); simpl; lia.
Qed.

Lemma length_strip s : (length (strip s) <= length s)%nat.
Proof.
  unfold strip, rstrip. rewrite length_rev.
  pose proof (length_lstrip (rev (lstrip s))) as H. rewrite length_rev in H.
  pose proof (length_lstrip s). lia.
Qed.

(** A text survives stripping exactly when it has a character that is not
    white space. *)
Lemma truthy_strip s : truthy (strip s) = existsb non_space s.
Proof.
  destruct (strip_cases s) as [[Hl ->]|(c & r & Hl & Hc & ->)]; simpl.
  - apply lstrip_all_space in Hl. symmetry. apply not_true_iff_false.
    intros H. apply existsb_exists in H as (x & Hin & Hx).
    rewrite forallb_forall in Hl. specialize (Hl x Hin).
    unfold non_space in Hx. rewrite Hl in Hx. discriminate.
  - symmetry. apply existsb_exists. exists c. split.
    + clear Hc. revert Hl. induction s as [|x s IH]; simpl; [discriminate|].
      destruct (is_space x); [intros H; right; now apply IH|].
      intros [= -> _]. now left.
    + unfold non_space. now rewrite Hc.
Qed.

(** ** Extractor, page by page *)

Lemma extract_pages_spec pages : forall file_text,
  extract_pages pages file_text
  = match first_raise pages with
    | Some e => Raise e
    | None => Ok (file_text ++ concat (map page_text pages))
    end.
Proof.
  induction pages as [|page pages IH]; intros acc; simpl.
  - now rewrite app_nil_r.
  - destruct page as [[t|]|e]; [| |reflexivity].
    + rewrite IH. destruct (first_raise pages); [reflexivity|].
      destruct t; simpl; [reflexivity | now rewrite <- app_assoc].
    + rewrite IH. now destruct (first_raise pages).
Qed.

(** X1. The text of a document is the concatenation of what its pages
    yield, in page order and with nothing in between, a page that yields
    [None] or the empty string adding nothing; and as soon as the reader or
    one page raises, the document has no text at all, whatever the earlier
    pages yielded. *)
Theorem read_file_pages pdf :
  read_file pdf
  = match PdfReader pdf with
    | Raise e => Raise e
    | Ok pages =>
        match first_raise pages with
        | Some e => Raise e
        | None => Ok (concat (map page_text pages))
        end
    end.
Proof.
  unfold read_file. destruct (PdfReader pdf) as [pages|e]; [|reflexivity].
  now rewrite extract_pages_spec.
Qed.

Lemma usable_non_space pdf :
  usable pdf = true -> existsb non_space (file_text_of pdf) = true.
Proof.
  unfold usable, unreadable, empty_text, file_text_of.
  destruct (read_file pdf) as [t|e]; simpl; [|discriminate].
  rewrite negb_involutive. now rewrite truthy_strip.
Qed.

Lemma filter_usable_all pdf_docs :
  existsb unreadable pdf_docs = false ->
  existsb empty_text pdf_docs = false ->
  filter usable pdf_docs = pdf_docs.
Proof.
  intros Hu He. apply filter_all. apply forallb_forall. intros pdf Hin.
  unfold usable. apply andb_true_iff. split; apply negb_true_iff.
  - destruct (unreadable pdf) eqn:E; [|reflexivity].
    assert (existsb unreadable pdf_docs = true)
      by (apply existsb_exists; eauto). congruence.
  - destruct (empty_text pdf) eqn:E; [|reflexivity].
    assert (existsb empty_text pdf_docs = true)
      by (apply existsb_exists; eauto). congruence.
Qed.

(** The test of line 30 by characters: a document is sorted among the
    empty-text ones exactly when it is read without an exception and every
    character of its text is white space. *)
Lemma empty_text_blank pdf : empty_text pdf = blank pdf.
Proof.
  unfold empty_text, blank. destruct (read_file pdf) as [t|e]; [|reflexivity].
  rewrite truthy_strip. induction t as [|c t IH]; [reflexivity|].
  simpl. unfold non_space at 1. rewrite negb_orb, negb_involutive.
  now rewrite IH.
Qed.

Lemma existsb_pointwise {A} (f g : A -> bool) (l : list A) :
  (forall a, f a = g a) -> existsb f l = existsb g l.
Proof. intros H. induction l as [|a l IH]; simpl; [reflexivity | now rewrite H, IH]. Qed.

Lemma readable_not_unreadable pdf_docs :
  Forall (fun pdf => exists file_text, read_file pdf = Ok file_text) pdf_docs ->
  existsb unreadable pdf_docs = false.
Proof.
  induction 1 as [|pdf rest (t & Ht) _ IH]; [reflexivity|].
  simpl. unfold unreadable at 1. now rewrite Ht.
Qed.

(** X2. On a batch in which every document is read without an exception,
    [get_pdf_text] goes by the characters of the texts: when some document
    has a text of white space only (or no character at all), it returns
    [None] and its warning lists the names of exactly those documents, in
    input order; when every document has a character that is not white
    space, it returns the texts concatenated and shows nothing. *)
Theorem get_pdf_text_blank_documents pdf_docs w :
  Forall (fun pdf => exists file_text, read_file pdf = Ok file_text) pdf_docs ->
  get_pdf_text pdf_docs w =
  if existsb blank pdf_docs then
    (Ok None,
     {| session := session w;
        screen := screen w ++
          [Warning (warning_sign
                    ++ lit " The following PDFs had no extractable text: "
                    ++ join (lit ", ") (map name (filter blank pdf_docs)))] |})
  else (Ok (Some (concat (map file_text_of pdf_docs))), w).
Proof.
  intros Hread. rewrite get_pdf_text_cases.
  pose proof (readable_not_unreadable Hread) as Hu. rewrite Hu.
  rewrite (existsb_pointwise empty_text blank pdf_docs empty_text_blank).
  rewrite (filter_ext empty_text blank empty_text_blank).
  destruct (existsb blank pdf_docs) eqn:Hb; [reflexivity|].
  rewrite filter_usable_all; [reflexivity | exact Hu |].
  now rewrite (existsb_pointwise empty_text blank pdf_docs empty_text_blank).
Qed.

Lemma get_pdf_text_blank_documents_sample :
  get_pdf_text [scanned_pdf; invoice_pdf; pageless_pdf] blank_world =
    (Ok None,
     {| session := session_empty;
        screen :=
          [Warning (warning_sign
                    ++ lit " The following PDFs had no extractable text: scanned.pdf, pageless.pdf")] |}).
Proof.
  apply (@get_pdf_text_blank_documents
           [scanned_pdf; invoice_pdf; pageless_pdf] blank_world).
  repeat constructor; eexists; reflexivity.
Defined.

(** X3. When [get_pdf_text] returns a text for a batch that is not empty,
    the text has a character that is not white space (so it is not the empty
    string), nothing was shown and the session is untouched: after a
    successful extraction the test [not raw_text] of [main] cannot fire. *)
Theorem get_pdf_text_some_non_blank pdf_docs w text w' :
  pdf_docs <> [] ->
  get_pdf_text pdf_docs w = (Ok (Some text), w') ->
  existsb non_space text = true /\ truthy text = true /\ w' = w.
Proof.
  intros Hne. rewrite get_pdf_text_cases.
  destruct (existsb unreadable pdf_docs) eqn:Hu; [discriminate|].
  destruct (existsb empty_text pdf_docs) eqn:He; [discriminate|].
  intros [= <- <-]. rewrite (filter_usable_all _ Hu He).
  assert (H : existsb non_space (concat (map file_text_of pdf_docs)) = true).
  { destruct pdf_docs as [|pdf rest]; [congruence|]. simpl.
    rewrite existsb_app. apply orb_true_iff. left.
    apply usable_non_space.
    pose proof (filter_usable_all _ Hu He) as Hf. simpl in Hf.
    destruct (usable pdf); [reflexivity|].
    exfalso. assert (Hlen : (length (filter usable rest) <= length rest)%nat)
      by apply filter_length_le.
    rewrite Hf in Hlen. simpl in Hlen. lia. }
  repeat split; [exact H|].
  destruct (concat (map file_text_of pdf_docs)); [discriminate H | reflexivity].
Qed.

Lemma get_pdf_text_some_non_blank_sample :
  existsb non_space (lit "Invoice Total: $42.00page one" ++ nl ++ lit "page three") = true
  /\ truthy (lit "Invoice Total: $42.00page one" ++ nl ++ lit "page three") = true
  /\ blank_world = blank_world.
Proof.
  apply (@get_pdf_text_some_non_blank [invoice_pdf; notes_pdf] blank_world).
  - discriminate.
  - reflexivity.
Defined.

(** ** Chunker: the merge loop in general *)

Lemma len_join_cons sep p ps :
  len (join sep (p :: ps))
  = (len p + if is_nil ps then 0 else len sep + len (join sep ps))%Z.
Proof.
  destruct ps as [|q ps].
  - simpl. lia.
  - rewrite join_cons by discriminate. rewrite !len_app. simpl. lia.
Qed.

Lemma len_join_snoc sep cd d :
  len (join sep (cd ++ [d]))
  = (len (join sep cd) + len d
     + Splitter.sep_if (1 <? length (cd ++ [d]))%nat (len sep))%Z.
Proof.
  rewrite join_snoc. unfold Splitter.sep_if. rewrite length_app. simpl.
  destruct cd as [|p cd]; simpl.
  - change (len []) with 0%Z. lia.
  - replace (1 <? S (length cd + 1))%nat with true
      by (symmetry; apply Nat.ltb_lt; lia).
    rewrite !len_app. lia.
Qed.

Lemma truthy_len p : truthy p = true -> (1 <= len p)%Z.
Proof. destruct p; [discriminate|]. unfold len. simpl. lia. Qed.

(** Non-empty pieces joined to nothing: there was no piece. *)
Lemma join_empty_nil sep ps :
  Forall (fun p => truthy p = true) ps -> (len (join sep ps) <= 0)%Z -> ps = [].
Proof.
  intros Hall Hlen. destruct ps as [|p ps]; [reflexivity|].
  inversion Hall as [|? ? Hp _]; subst. apply truthy_len in Hp.
  rewrite len_join_cons in Hlen.
  pose proof (len_nonneg sep). pose proof (len_nonneg (join sep ps)).
  destruct (is_nil ps); lia.
Qed.

Lemma join_docs_some pieces sep doc :
  Splitter.join_docs pieces sep = Some doc ->
  doc <> [] /\ strip doc = doc /\ (len doc <= len (join sep pieces))%Z.
Proof.
  unfold Splitter.join_docs.
  destruct (truthy (strip (join sep pieces))) eqn:E; [|discriminate].
  intros [= <-]. repeat split.
  - intros H. rewrite H in E. discriminate.
  - apply strip_idem.
  - unfold len. pose proof (length_strip (join sep pieces)). lia.
Qed.

Section MergeLoop.

Variable self : Splitter.CharacterTextSplitter.
Variable sep : str.
Hypothesis overlap_nonneg : (0 <= Splitter.chunk_overlap self)%Z.

Let size := Splitter.chunk_size self.

Lemma overflows_join cd d :
  Splitter.overflows self cd (len (join sep cd)) (len d) (len sep)
  = (size <? len (join sep (cd ++ [d])))%Z.
Proof.
  unfold Splitter.overflows, size. rewrite len_join_snoc. f_equal. f_equal.
  unfold Splitter.sep_if. rewrite length_app. simpl.
  destruct cd as [|p cd]; simpl; [reflexivity|].
  replace (1 <? S (length cd + 1))%nat with true
    by (symmetry; apply Nat.ltb_lt; lia).
  reflexivity.
Qed.

(** The [while] loop never reads an empty list: it stops with a suffix of
    [current_doc] which the next piece fits behind, or with nothing. *)
Lemma pop_front_spec d cd :
  exists dropped kept,
    cd = dropped ++ kept
    /\ Splitter.pop_front self (len d) (len sep) cd (len (join sep cd))
       = Ok (kept, len (join sep kept))
    /\ ((len (join sep (kept ++ [d])) <= size)%Z
        \/ (len (join sep kept) <= 0)%Z).
Proof.
  induction cd as [|first rest IH].
  - exists [], []. split; [reflexivity|]. cbn [Splitter.pop_front].
    change (len (join sep [])) with 0%Z.
    replace (Splitter.chunk_overlap self <? 0)%Z with false
      by (symmetry; apply Z.ltb_ge; lia).
    rewrite andb_false_r. simpl. split; [reflexivity | right; lia].
  - cbn [Splitter.pop_front].
    destruct ((Splitter.chunk_overlap self <? len (join sep (first :: rest)))%Z
              || Splitter.overflows self (first :: rest)
                   (len (join sep (first :: rest))) (len d) (len sep)
                 && (0 <? len (join sep (first :: rest)))%Z) eqn:Hcond.
    + destruct IH as (dropped & kept & -> & Hpop & Hfit).
      exists (first :: dropped), kept. split; [reflexivity|].
      split; [|exact Hfit].
      rewrite <- Hpop. f_equal.
      rewrite len_join_cons. unfold Splitter.sep_if. simpl length.
      destruct (dropped ++ kept) as [|q qs]; simpl.
      * change (len []) with 0%Z. lia.
      * lia.
    + exists [], (first :: rest). split; [reflexivity|].
      split; [reflexivity|].
      apply orb_false_iff in Hcond as [_ Hcond].
      apply andb_false_iff in Hcond as [Hcond|Hcond].
      * left. rewrite overflows_join in Hcond. apply Z.ltb_ge in Hcond. exact Hcond.
      * right. apply Z.ltb_ge in Hcond. exact Hcond.
Qed.

(** One iteration: at most one chunk is emitted, made of the pieces
    gathered so far; a suffix of them is kept and the new piece put behind;
    [total] stays the length of what is gathered. *)
Lemma merge_step_spec docs cd d :
  exists docs' dropped kept,
    cd = dropped ++ kept
    /\ Splitter.merge_step self sep (docs, cd, len (join sep cd)) d
       = Ok (docs', kept ++ [d], len (join sep (kept ++ [d])))
    /\ (docs' = docs
        \/ exists doc, Splitter.join_docs cd sep = Some doc
                       /\ docs' = docs ++ [doc])
    /\ ((len (join sep (kept ++ [d])) <= size)%Z
        \/ (len (join sep kept) <= 0)%Z).
Proof.
  unfold Splitter.merge_step. rewrite overflows_join.
  destruct (size <? len (join sep (cd ++ [d])))%Z eqn:Hover.
  - destruct cd as [|first rest].
    + exists docs, [], []. cbn [is_nil negb app].
      rewrite <- len_join_snoc. repeat split; auto.
      right. change (len (join sep [])) with 0%Z. lia.
    + cbn [is_nil negb].
      destruct (pop_front_spec d (first :: rest))
        as (dropped & kept & Hcd & -> & Hfit).
      rewrite <- len_join_snoc.
      destruct (Splitter.join_docs (first :: rest) sep) as [doc|] eqn:Hdoc.
      * exists (docs ++ [doc]), dropped, kept. repeat split; eauto.
      * exists docs, dropped, kept. repeat split; auto.
  - exists docs, [], cd. rewrite <- len_join_snoc. repeat split; auto.
    left. apply Z.ltb_ge in Hover. exact Hover.
Qed.

Lemma Forall_app_suffix {A} (Q : A -> Prop) (l1 l2 : list A) :
  Forall Q (l1 ++ l2) -> Forall Q l2.
Proof. intros H. apply Forall_app in H. tauto. Qed.

(** The loop never raises; what it emits are joined and stripped pieces;
    and when the pieces are non-empty and none is longer than [chunk_size],
    neither is anything emitted or gathered. *)
Lemma merge_loop_spec splits : forall docs cd,
  exists new cd',
    Splitter.merge_loop self sep splits (docs, cd, len (join sep cd))
    = Ok (docs ++ new, cd', len (join sep cd'))
    /\ Forall (emitted sep) new
    /\ (Forall (fun p => truthy p = true) (cd ++ splits) ->
        Forall (fun p => (len p <= size)%Z) splits ->
        (len (join sep cd) <= size)%Z ->
        Forall (fun doc => (len doc <= size)%Z) new
        /\ (len (join sep cd') <= size)%Z).
Proof.
  induction splits as [|d splits IH]; intros docs cd.
  - exists [], cd. simpl. rewrite app_nil_r. repeat split; auto.
  - cbn [Splitter.merge_loop].
    destruct (merge_step_spec docs cd d)
      as (docs' & dropped & kept & Hcd & -> & Hdocs & Hfit).
    destruct (IH docs' (kept ++ [d])) as (new & cd' & -> & Hnew & Hbound).
    assert (Hkept : Forall (fun p => truthy p = true) (cd ++ d :: splits) ->
                    Forall (fun p => (len p <= size)%Z) (d :: splits) ->
                    (len (join sep (kept ++ [d])) <= size)%Z
                    /\ Forall (fun p => truthy p = true) ((kept ++ [d]) ++ splits)).
    { intros Htr Hsz. split.
      - destruct Hfit as [Hfit|Hzero]; [exact Hfit|].
        assert (kept = []) as ->.
        { apply (join_empty_nil sep); [|exact Hzero].
          subst cd. rewrite <- app_assoc in Htr.
          apply Forall_app_suffix in Htr. apply Forall_app in Htr. tauto. }
        simpl. now inversion Hsz.
      - rewrite <- app_assoc. simpl. subst cd. rewrite <- app_assoc in Htr.
        now apply Forall_app_suffix in Htr. }
    destruct Hdocs as [->|(doc & Hdoc & ->)].
    + exists new, cd'. split; [reflexivity|]. split; [exact Hnew|].
      intros Htr Hsz Hcdsz. destruct (Hkept Htr Hsz) as [H1 H2].
      inversion Hsz; subst. now apply Hbound.
    + exists (doc :: new), cd'. rewrite <- app_assoc. split; [reflexivity|].
      split; [constructor; [now exists cd | exact Hnew]|].
      intros Htr Hsz Hcdsz. destruct (Hkept Htr Hsz) as [H1 H2].
      inversion Hsz; subst. destruct (Hbound H2) as [Hb1 Hb2]; auto.
      split; [|exact Hb2]. constructor; [|exact Hb1].
      apply join_docs_some in Hdoc as (_ & _ & Hlen). lia.
Qed.

Lemma split_text_spec text :
  Splitter.separator self = sep ->
  exists chunks,
    Splitter.split_text self text = Ok chunks
    /\ Forall (emitted sep) chunks
    /\ (Forall (fun p => (len p <= size)%Z) (split sep text) ->
        Forall (fun chunk => (len chunk <= size)%Z) chunks).
Proof.
  intros Hsep. unfold Splitter.split_text, Splitter.merge_splits.
  rewrite Hsep. set (splits := filter truthy (split sep text)).
  change 0%Z with (len (join sep [])).
  destruct (merge_loop_spec splits [] []) as (new & cd' & -> & Hnew & Hbound).
  cbn [app].
  assert (Htr : Forall (fun p => truthy p = true) ([] ++ splits)).
  { apply Forall_forall. intros p Hin. now apply filter_In in Hin. }
  assert (Hsz : Forall (fun p => (len p <= size)%Z) (split sep text) ->
                Forall (fun p => (len p <= size)%Z) splits).
  { intros H. apply Forall_forall. intros p Hin. apply filter_In in Hin.
    rewrite Forall_forall in H. now apply H. }
  destruct (Splitter.join_docs cd' sep) as [doc|] eqn:Hdoc.
  - exists (new ++ [doc]). split; [reflexivity|]. split.
    + apply Forall_app. split; [exact Hnew|]. constructor; [now exists cd' | constructor].
    + intros H. assert (0 <= size)%Z as Hsize.
      { destruct (split sep text) as [|p ps] eqn:E;
          [exfalso; revert E; apply split_go_not_nil|].
        inversion H; subst. pose proof (len_nonneg p). lia. }
      destruct (Hbound Htr (Hsz H)) as [Hb1 Hb2];
        [change (len (join sep [])) with 0%Z; lia|].
      apply Forall_app. split; [exact Hb1|]. constructor; [|constructor].
      apply join_docs_some in Hdoc as (_ & _ & Hlen). lia.
  - exists new. split; [reflexivity|]. split; [exact Hnew|].
    intros H. assert (0 <= size)%Z as Hsize.
    { destruct (split sep text) as [|p ps] eqn:E;
        [exfalso; revert E; apply split_go_not_nil|].
      inversion H; subst. pose proof (len_nonneg p). lia. }
    apply (Hbound Htr (Hsz H)). change (len (join sep [])) with 0%Z. lia.
Qed.

End MergeLoop.

Lemma get_text_chunks_spec text :
  exists chunks,
    get_text_chunks text = Ok chunks
    /\ Forall (fun chunk => chunk <> [] /\ strip chunk = chunk) chunks
    /\ (Forall (fun line => (length line <= 1000)%nat) (split nl text) ->
        Forall (fun chunk => (length chunk <= 1000)%nat) chunks).
Proof.
  unfold get_text_chunks. destruct (truthy text).
  2:{ exists []. simpl. repeat split; auto. }
  cbn [negb].
  destruct (@split_text_spec text_splitter nl ltac:(simpl; lia) text eq_refl)
    as (chunks & -> & Hem & Hbound).
  exists chunks. split; [reflexivity|]. split.
  - apply Forall_forall. intros chunk Hin. rewrite Forall_forall in Hem.
    destruct (Hem chunk Hin) as (pieces & Hdoc).
    apply join_docs_some in Hdoc. tauto.
  - intros H. cbn [text_splitter Splitter.chunk_size] in Hbound.
    assert (Hb : Forall (fun chunk => (len chunk <= 1000)%Z) chunks).
    { apply Hbound. apply Forall_forall. intros p Hin.
      rewrite Forall_forall in H. specialize (H p Hin). unfold len. lia. }
    apply Forall_forall. intros chunk Hin. rewrite Forall_forall in Hb.
    specialize (Hb chunk Hin). unfold len in Hb. lia.
Qed.

(** X4. [get_text_chunks] returns a list of chunks for every text: the
    merge loop of the splitter never takes the first element of an empty
    list, so no [IndexError] leaves it. *)
Theorem get_text_chunks_never_raises text :
  exists chunks, get_text_chunks text = Ok chunks.
Proof.
  destruct (get_text_chunks_spec text) as (chunks & H & _). now exists chunks.
Qed.

(** X5. No chunk that [get_text_chunks] returns is empty, and none starts
    or ends with white space: each is its own [strip]. *)
Theorem get_text_chunks_stripped text chunks :
  get_text_chunks text = Ok chunks ->
  Forall (fun chunk => chunk <> [] /\ strip chunk = chunk) chunks.
Proof.
  intros H. destruct (get_text_chunks_spec text) as (chunks' & H' & Hs & _).
  congruence.
Qed.

Lemma get_text_chunks_stripped_sample :
  Forall (fun chunk => chunk <> [] /\ strip chunk = chunk) [lit "a b"; lit "c"].
Proof.
  apply (@get_text_chunks_stripped
           (lit "  a b  " ++ repeat 32%N 1000 ++ nl ++ lit " c ")).
  vm_compute. reflexivity.
Defined.

(** X6. When no line of the text is longer than 1000 characters, no chunk
    that [get_text_chunks] returns is longer than 1000 characters. *)
Theorem get_text_chunks_bounded text chunks :
  Forall (fun line => (length line <= 1000)%nat) (split nl text) ->
  get_text_chunks text = Ok chunks ->
  Forall (fun chunk => (length chunk <= 1000)%nat) chunks.
Proof.
  intros Hlines H.
  destruct (get_text_chunks_spec text) as (chunks' & H' & _ & Hb).
  assert (chunks' = chunks) as <- by congruence. now apply Hb.
Qed.

Lemma get_text_chunks_bounded_sample :
  Forall (fun chunk => (length chunk <= 1000)%nat)
    [repeat 97%N 600 ++ nl ++ repeat 98%N 300; repeat 99%N 500].
Proof.
  apply (@get_text_chunks_bounded
           (repeat 97%N 600 ++ nl ++ repeat 98%N 300 ++ nl ++ nl
            ++ repeat 99%N 500)).
  - vm_compute. repeat constructor.
  - vm_compute. reflexivity.
Defined.

(** ** Session controller: every way the Process action can go *)

Ltac run_process :=
  unfold process, failed_stage, get_vectorstore, get_conversation_chain,
    construct;
  repeat (progress
    (cbv [bind emit ret raise of_result get_session put_session session
          screen chat_history fst stages_through truthy negb is_nil is_none];
     rewrite ?get_pdf_text_cases;
     repeat match goal with
            | H : ?l = _ |- context [?l] => rewrite H
            end)).

Lemma process_cases ext pdf_docs w :
  pdf_docs <> [] ->
  let at_stage names :=
    {| session := session w; screen := screen w ++ map Enter names |} in
  let show w' evs :=
    {| session := session w'; screen := screen w' ++ evs |} in
  (exists warn,
     process ext pdf_docs w
     = (Ok tt, show (at_stage (stages_through Extraction))
                 [Warning warn; Error no_text_error])
     /\ failed_stage ext pdf_docs = Some Extraction)
  \/ (process ext pdf_docs w
      = (Ok tt, show (at_stage (stages_through Extraction)) [Error no_text_error])
      /\ failed_stage ext pdf_docs = Some Extraction)
  \/ (process ext pdf_docs w
      = (Ok tt, show (at_stage (stages_through Chunking)) [Error no_chunks_error])
      /\ failed_stage ext pdf_docs = Some Chunking)
  \/ (exists e st,
        process ext pdf_docs w = (Raise e, at_stage (stages_through st))
        /\ st <> Extraction
        /\ failed_stage ext pdf_docs = Some st)
  \/ (exists chunks,
        get_text_chunks (concat (map file_text_of pdf_docs)) = Ok chunks
        /\ chunks <> []
        /\ process ext pdf_docs w
           = (Ok tt,
              {| session :=
                   {| conversation :=
                        Some (Some
                          {| llm := {| groq_model_name := lit "llama3-8b-8192" |};
                             retriever :=
                               {| faiss_texts := chunks;
                                  faiss_embedding :=
                                    {| hf_model_name :=
                                         lit "sentence-transformers/all-MiniLM-L6-v2" |} |};
                             memory := {| memory_key := lit "chat_history";
                                          return_messages := true |};
                             combine_docs_prompt := None |});
                      chat_history := chat_history (session w) |};
                 screen := screen w ++ map Enter (stages_through ChainConstruction)
                           ++ [Success processed_message] |})
        /\ failed_stage ext pdf_docs = None).
Proof.
  intros Hne. cbv zeta. destruct w as [s scr]. cbn [session screen].
  destruct pdf_docs as [|pdf rest]; [congruence|].
  destruct (existsb unreadable (pdf :: rest)) eqn:Hu.
  { left. eexists. run_process. rewrite <- !app_assoc. split; reflexivity. }
  destruct (existsb empty_text (pdf :: rest)) eqn:He.
  { left. eexists. run_process. rewrite <- !app_assoc. split; reflexivity. }
  pose proof (filter_usable_all _ Hu He) as Husable.
  destruct (concat (map file_text_of (pdf :: rest))) as [|c raw_text] eqn:Htext.
  { right. left. run_process. rewrite <- !app_assoc. split; reflexivity. }
  destruct (get_text_chunks (c :: raw_text))
    as [[|chunk text_chunks]|e] eqn:Hchunks.
  { right. right. left. run_process. rewrite <- !app_assoc. split; reflexivity. }
  2:{ right. right. right. left. exists e, Chunking. run_process.
      rewrite <- !app_assoc. repeat split; solve [reflexivity | discriminate]. }
  destruct (HuggingFaceEmbeddings_raises ext
              (lit "sentence-transformers/all-MiniLM-L6-v2")) as [e|] eqn:Hhf.
  { right. right. right. left. exists e, Indexing. run_process.
    rewrite <- !app_assoc. repeat split; solve [reflexivity | discriminate]. }
  destruct (FAISS_from_texts_raises ext (chunk :: text_chunks)
              {| hf_model_name := lit "sentence-transformers/all-MiniLM-L6-v2" |})
    as [e|] eqn:Hfaiss.
  { right. right. right. left. exists e, Indexing. run_process.
    rewrite <- !app_assoc. repeat split; solve [reflexivity | discriminate]. }
  destruct (ChatGroq_raises ext (lit "llama3-8b-8192")) as [e|] eqn:Hgroq.
  { right. right. right. left. exists e, ChainConstruction. run_process.
    rewrite <- !app_assoc. repeat split; solve [reflexivity | discriminate]. }
  destruct (from_llm_raises ext
              {| llm := {| groq_model_name := lit "llama3-8b-8192" |};
                 retriever :=
                   {| faiss_texts := chunk :: text_chunks;
                      faiss_embedding :=
                        {| hf_model_name :=
                             lit "sentence-transformers/all-MiniLM-L6-v2" |} |};
                 memory := {| memory_key := lit "chat_history";
                              return_messages := true |};
                 combine_docs_prompt := None |}) as [e|] eqn:Hllm.
  { right. right. right. left. exists e, ChainConstruction. run_process.
    rewrite <- !app_assoc. repeat split; solve [reflexivity | discriminate]. }
  right. right. right. right. exists (chunk :: text_chunks). run_process.
  rewrite <- !app_assoc. repeat split; solve [reflexivity | discriminate].
Qed.

(** X7. Whatever the outside does, the Process action never shows
    "Vectorstore creation failed", "Failed to initialize conversation
    chain" or "Cannot create conversation chain": once there are chunks,
    index and chain construction either succeed or raise, so the three
    messages guard cases that do not occur. *)
Theorem process_dead_errors ext pdf_docs w :
  exists shown,
    screen (snd (process ext pdf_docs w)) = screen w ++ shown
    /\ Forall (fun ev => forall msg, In msg dead_errors -> ev <> Error msg) shown.
Proof.
  assert (Hdead : forall msg, In msg dead_errors ->
            Error no_upload_error <> Error msg
            /\ Error no_text_error <> Error msg
            /\ Error no_chunks_error <> Error msg).
  { intros msg [<-|[<-|[<-|[]]]]; repeat split; intros H; vm_compute in H;
      discriminate H. }
  destruct pdf_docs as [|pdf rest].
  { eexists. split; [reflexivity|]. constructor; [|constructor].
    intros msg Hin. now apply Hdead. }
  destruct (@process_cases ext (pdf :: rest) w ltac:(discriminate))
    as [(warn & -> & _)|[(-> & _)|[(-> & _)|[(e & st & -> & _)
        |(chunks & _ & _ & -> & _)]]]];
    cbn [snd session screen]; rewrite <- ?app_assoc;
    (eexists; split; [reflexivity|]).
  - repeat constructor; try discriminate. intros msg Hin. now apply Hdead.
  - repeat constructor; try discriminate. intros msg Hin. now apply Hdead.
  - repeat constructor; try discriminate. intros msg Hin. now apply Hdead.
  - destruct st; repeat constructor; discriminate.
  - repeat constructor; discriminate.
Qed.

(** X8. When the upload is not empty and the four stages succeed, the
    Process action binds the session to a new chain whose index holds exactly
    the chunks of the concatenated texts of the documents, built with the two
    fixed model names, a fresh memory and no prompt of its own; the chat
    history is kept as it is, and the page gets the success message and no
    error. *)
Theorem process_success ext pdf_docs w :
  pdf_docs <> [] ->
  failed_stage ext pdf_docs = None ->
  exists chunks,
    get_text_chunks (concat (map file_text_of pdf_docs)) = Ok chunks
    /\ chunks <> []
    /\ process ext pdf_docs w
       = (Ok tt,
          {| session :=
               {| conversation :=
                    Some (Some
                      {| llm := {| groq_model_name := lit "llama3-8b-8192" |};
                         retriever :=
                           {| faiss_texts := chunks;
                              faiss_embedding :=
                                {| hf_model_name :=
                                     lit "sentence-transformers/all-MiniLM-L6-v2" |} |};
                         memory := {| memory_key := lit "chat_history";
                                      return_messages := true |};
                         combine_docs_prompt := None |});
                  chat_history := chat_history (session w) |};
             screen := screen w ++ map Enter (stages_through ChainConstruction)
                       ++ [Success processed_message] |}).
Proof.
  intros Hne Hok.
  destruct (@process_cases ext pdf_docs w Hne)
    as [(warn & _ & H)|[(_ & H)|[(_ & H)|[(e & st & _ & _ & H)
        |(chunks & Hchunks & Hnil & Hrun & _)]]]]; try congruence.
  exists chunks. auto.
Qed.

Lemma process_success_sample :
  exists chunks,
    get_text_chunks (concat (map file_text_of [invoice_pdf; notes_pdf])) = Ok chunks
    /\ chunks <> []
    /\ process sample_externals [invoice_pdf; notes_pdf] ready_world
       = (Ok tt,
          {| session :=
               {| conversation :=
                    Some (Some
                      {| llm := {| groq_model_name := lit "llama3-8b-8192" |};
                         retriever :=
                           {| faiss_texts := chunks;
                              faiss_embedding :=
                                {| hf_model_name :=
                                     lit "sentence-transformers/all-MiniLM-L6-v2" |} |};
                         memory := {| memory_key := lit "chat_history";
                                      return_messages := true |};
                         combine_docs_prompt := None |});
                  chat_history := chat_history (session ready_world) |};
             screen := screen ready_world
                       ++ map Enter (stages_through ChainConstruction)
                       ++ [Success processed_message] |}).
Proof.
  apply (@process_success sample_externals [invoice_pdf; notes_pdf] ready_world).
  - discriminate.
  - reflexivity.
Defined.

(** ** How a run of the script can move the session *)

Section Steps.

Variable R : session_state -> session_state -> Prop.
Hypothesis R_refl : forall s, R s s.
Hypothesis R_trans : forall s1 s2 s3, R s1 s2 -> R s2 s3 -> R s1 s3.

Lemma steps_silent {A} (m : M A) :
  (forall w, session (snd (m w)) = session w) -> steps R m.
Proof. intros H w. rewrite H. apply R_refl. Qed.

Lemma steps_ret {A} (a : A) : steps R (ret a).
Proof. now apply steps_silent. Qed.

Lemma steps_raise {A} e : steps R (@raise A e).
Proof. now apply steps_silent. Qed.

Lemma steps_of_result {A} (r : result A) : steps R (of_result r).
Proof. now apply steps_silent. Qed.

Lemma steps_emit ev : steps R (emit ev).
Proof. now apply steps_silent. Qed.

Lemma steps_emit_all evs : steps R (emit_all evs).
Proof. apply steps_silent. intros w. now rewrite emit_all_spec. Qed.

Lemma steps_get_pdf_text pdf_docs : steps R (get_pdf_text pdf_docs).
Proof.
  apply steps_silent. intros w. rewrite get_pdf_text_cases.
  destruct (existsb unreadable pdf_docs); [reflexivity|].
  destruct (existsb empty_text pdf_docs); reflexivity.
Qed.

Lemma steps_get_conversation_chain ext vectorstore :
  steps R (get_conversation_chain ext vectorstore).
Proof.
  apply steps_silent. intros w.
  unfold get_conversation_chain, bind, of_result, construct, ret, emit.
  destruct vectorstore as [v|]; [|reflexivity].
  destruct (ChatGroq_raises ext _); [reflexivity|].
  destruct (from_llm_raises ext _); reflexivity.
Qed.

Lemma steps_bind {A B} (m : M A) (k : A -> M B) :
  steps R m -> (forall a, steps R (k a)) -> steps R (bind m k).
Proof.
  intros Hm Hk w. unfold bind. specialize (Hm w).
  destruct (m w) as [[a|e] w']; cbn [snd] in *.
  - eapply R_trans; [exact Hm | apply Hk].
  - exact Hm.
Qed.

Lemma steps_at_bind {A B} s (m : M A) (k : A -> M B) :
  steps_at s R m -> (forall a, steps R (k a)) -> steps_at s R (bind m k).
Proof.
  intros Hm Hk w Hw. unfold bind. specialize (Hm w Hw).
  destruct (m w) as [[a|e] w']; cbn [snd] in *.
  - eapply R_trans; [exact Hm | apply Hk].
  - exact Hm.
Qed.

Lemma steps_at_steps {A} s (m : M A) : steps R m -> steps_at s R m.
Proof. intros Hm w <-. apply Hm. Qed.

Lemma steps_at_put s s' : R s s' -> steps_at s R (put_session s').
Proof. intros H w _. exact H. Qed.

Lemma steps_get {B} (k : session_state -> M B) :
  (forall s, steps_at s R (k s)) -> steps R (bind get_session k).
Proof. intros Hk w. unfold bind, get_session. now apply Hk. Qed.

(** The four updates of the session that [app.py] contains. *)
Hypothesis R_bind_none : forall s,
  conversation s = None ->
  R s {| conversation := Some None; chat_history := chat_history s |}.
Hypothesis R_bind_history : forall s,
  chat_history s = None ->
  R s {| conversation := conversation s; chat_history := Some [] |}.
Hypothesis R_append : forall s history entry,
  chat_history s = Some history ->
  R s {| conversation := conversation s;
         chat_history := Some (history ++ [entry]) |}.

Lemma steps_append_history entry : steps R (append_history entry).
Proof.
  apply steps_get. intros s. destruct (chat_history s) as [history|] eqn:E.
  - apply steps_at_put. now apply R_append.
  - apply steps_at_steps, steps_raise.
Qed.

Lemma steps_ask ext q : steps R (ask ext q).
Proof.
  apply steps_get. intros s. apply steps_at_steps.
  destruct (conversation s) as [[chain|]|].
  - apply steps_bind; [apply steps_emit | intros; apply steps_of_result].
  - apply steps_raise.
  - apply steps_raise.
Qed.

Lemma steps_handle_userinput ext q : steps R (handle_userinput ext q).
Proof.
  unfold handle_userinput.
  apply steps_get. intros s. apply steps_at_bind.
  { destruct (chat_history s) eqn:E.
    - apply steps_at_steps, steps_ret.
    - apply steps_at_put. now apply R_bind_history. }
  intros _. apply steps_bind; [apply steps_append_history|].
  intros _. apply steps_get. intros s'. apply steps_at_steps.
  destruct (chat_history s'); [|apply steps_raise].
  apply steps_bind; [apply steps_emit_all|]. intros _.
  apply steps_bind; [apply steps_emit|]. intros _.
  apply steps_bind; [apply steps_emit|]. intros _.
  apply steps_bind; [apply steps_ask|]. intros bot_reply.
  apply steps_bind; [apply steps_emit|]. intros _.
  apply steps_bind; [apply steps_append_history|]. intros _.
  apply steps_emit.
Qed.

Lemma steps_process ext pdf_docs :
  (forall s chain,
     R s {| conversation := Some (Some chain);
            chat_history := chat_history s |}) ->
  steps R (process ext pdf_docs).
Proof.
  intros R_assign. unfold process.
  destruct (is_nil pdf_docs); [apply steps_emit|].
  apply steps_bind; [apply steps_emit|]. intros _.
  apply steps_bind; [apply steps_get_pdf_text|]. intros [raw_text|];
    [|apply steps_emit].
  destruct (negb (truthy raw_text)); [apply steps_emit|].
  apply steps_bind; [apply steps_emit|]. intros _.
  apply steps_bind; [apply steps_of_result|]. intros text_chunks.
  destruct (is_nil text_chunks); [apply steps_emit|].
  apply steps_bind; [apply steps_emit|]. intros _.
  apply steps_bind; [apply steps_of_result|]. intros vectorstore.
  destruct (is_none vectorstore); [apply steps_emit|].
  apply steps_bind; [apply steps_emit|]. intros _.
  apply steps_bind; [apply steps_get_conversation_chain|]. intros [chain|];
    [|apply steps_emit].
  cbn [is_none]. apply steps_get. intros s. apply steps_at_bind.
  - apply steps_at_put. apply R_assign.
  - intros _. apply steps_emit.
Qed.

(** A run of [main] moves the session by these updates only; the
    assignment of a chain is among them only when Process is pressed. *)
Lemma steps_main ext ui :
  (process_clicked ui = true ->
   forall s chain,
     R s {| conversation := Some (Some chain);
            chat_history := chat_history s |}) ->
  steps R (main ext ui).
Proof.
  intros R_assign. unfold main.
  do 4 (apply steps_bind;
        [unfold copy_env; destruct (getenv ext _);
         [apply steps_ret | apply steps_raise] | intros _]).
  apply steps_bind; [apply steps_emit | intros _].
  apply steps_get. intros s0. apply steps_at_bind.
  { destruct (conversation s0) eqn:E; cbn [is_none].
    - apply steps_at_steps, steps_ret.
    - apply steps_at_put. now apply R_bind_none. }
  intros _. apply steps_get. intros s1. apply steps_at_bind.
  { destruct (chat_history s1) eqn:E; cbn [is_none].
    - apply steps_at_steps, steps_ret.
    - apply steps_at_put. now apply R_bind_history. }
  intros _.
  apply steps_bind; [apply steps_emit | intros _].
  apply steps_bind; [apply steps_emit | intros _].
  apply steps_bind.
  { destruct (truthy _); [apply steps_handle_userinput | apply steps_ret]. }
  intros _. apply steps_bind; [apply steps_emit | intros _].
  destruct (process_clicked ui); [|apply steps_ret].
  apply steps_process. now apply R_assign.
Qed.

End Steps.

Lemma continues_refl s : continues s s.
Proof. exists []. now rewrite app_nil_r. Qed.

Lemma continues_trans s1 s2 s3 : continues s1 s2 -> continues s2 s3 -> continues s1 s3.
Proof.
  intros [m1 H1] [m2 H2]. exists (m1 ++ m2). now rewrite H2, H1, app_assoc.
Qed.

Lemma rerun_continues s r : continues s (rerun s r).
Proof.
  unfold rerun. rewrite session_run_action.
  change s with (session {| session := s; screen := [] |}) at 1.
  apply (@steps_main continues continues_refl continues_trans).
  - intros s0 H. exists []. unfold history_of. simpl. now rewrite app_nil_r.
  - intros s0 H. exists []. unfold history_of. simpl. now rewrite H.
  - intros s0 history entry H. exists [entry]. unfold history_of. simpl.
    now rewrite H.
  - intros _ s0 chain. exists []. unfold history_of. simpl. now rewrite app_nil_r.
Qed.

(** X9. Within a session the chat history is append-only: whatever the
    runs of the script do (questions answered or failing, documents
    processed or rejected, exceptions), the history after more runs begins
    with the history as it was. *)
Theorem chat_history_append_only runs more_runs :
  exists entries,
    history_of (session_after (runs ++ more_runs))
    = history_of (session_after runs) ++ entries.
Proof.
  unfold session_after. rewrite fold_left_app.
  generalize (fold_left rerun runs session_empty) as s.
  induction more_runs as [|r more_runs IH]; intros s.
  - apply continues_refl.
  - simpl. apply (continues_trans (rerun_continues s r)). apply IH.
Qed.

(** X10. A run of the script in which Process is not pressed leaves the
    session bound to the chain it was bound to, or to none as before:
    asking questions never changes or drops the chain. *)
Theorem rerun_without_process_keeps_chain s r :
  process_clicked (ui r) = false ->
  chain_of (rerun s r) = chain_of s.
Proof.
  intros Hclick. unfold rerun. rewrite session_run_action. symmetry.
  change s with (session {| session := s; screen := [] |}) at 1.
  apply (@steps_main (fun s1 s2 => chain_of s1 = chain_of s2)).
  - reflexivity.
  - intros s1 s2 s3 H1 H2. congruence.
  - intros s0 H. unfold chain_of. simpl. now rewrite H.
  - reflexivity.
  - reflexivity.
  - rewrite Hclick. discriminate.
Qed.

Lemma rerun_without_process_keeps_chain_sample :
  chain_of (rerun (session ready_world) invoice_question_run)
  = Some sample_chain.
Proof.
  exact (@rerun_without_process_keeps_chain
           (session ready_world) invoice_question_run eq_refl).
Defined.

(** ** Start-up and questions without a chain *)

(** X11. When one of the four LangSmith variables is missing from the
    environment, [main] ends with a [TypeError] at once: nothing is written
    to the page and the session is not touched, not even given its default
    entries. *)
Theorem main_missing_env ext ui w key :
  In key main_env_keys ->
  getenv ext key = None ->
  main ext ui w = (Raise TypeError, w).
Proof.
  intros Hin Hkey. unfold main, bind, copy_env, raise, ret.
  destruct (getenv ext (lit "LANGSMITH_API_KEY")) eqn:H1; [|reflexivity].
  destruct (getenv ext (lit "LANGSMITH_TRACING_v2")) eqn:H2; [|reflexivity].
  destruct (getenv ext (lit "LANGSMITH_PROJECT")) eqn:H3; [|reflexivity].
  destruct (getenv ext (lit "LANGSMITH_ENDPOINT")) eqn:H4; [|reflexivity].
  destruct Hin as [<-|[<-|[<-|[<-|[]]]]]; congruence.
Qed.

Lemma main_missing_env_sample :
  main unconfigured_externals (ui invoice_run) ready_world
  = (Raise TypeError, ready_world).
Proof.
  apply (@main_missing_env unconfigured_externals (ui invoice_run) ready_world
           (lit "LANGSMITH_PROJECT")).
  - right. right. left. reflexivity.
  - reflexivity.
Defined.

Lemma handle_userinput_no_chain ext q history scr :
  handle_userinput ext q
    {| session := {| conversation := Some None; chat_history := Some history |};
       screen := scr |}
  = (Raise TypeError,
     {| session := {| conversation := Some None;
                      chat_history := Some (history ++ [(lit "user", q)]) |};
        screen := scr ++ map (render ext) (history ++ [(lit "user", q)])
                  ++ [PlaceholderMarkdown typing_html; Sleep 1500] |}).
Proof.
  unfold handle_userinput.
  cbv [bind get_session put_session append_history ret session screen
       conversation chat_history].
  rewrite emit_all_spec.
  cbv [bind emit ask get_session raise session screen conversation].
  now rewrite <- !app_assoc.
Qed.

(** X12. A question typed while the session has no chain makes the run
    end with a [TypeError] inside [handle_userinput]: the question stays in
    the chat history, no bot entry follows it, the chain is not invoked, and
    the rest of the script is not run, so that a Process pressed in the same
    run does nothing. *)
Theorem main_question_without_chain ext ui w :
  Forall (fun key => getenv ext key <> None) main_env_keys ->
  chain_of (session w) = None ->
  truthy (user_question ui) = true ->
  let asked := history_of (session w) ++ [(lit "user", user_question ui)] in
  main ext ui w
  = (Raise TypeError,
     {| session := {| conversation := Some None; chat_history := Some asked |};
        screen :=
          screen w
          ++ [Write (css ext); Header (lit "TalkDocs :books:");
              Subheader (lit "Chat with multiple PDFs")]
          ++ map (render ext) asked
          ++ [PlaceholderMarkdown typing_html; Sleep 1500] |}).
Proof.
  intros Henv Hidle Hq. cbv zeta. destruct w as [[conv hist] scr].
  assert (Hconv : conv = None \/ conv = Some None).
  { unfold chain_of in Hidle. simpl in Hidle.
    destruct conv as [[chain|]|]; [discriminate | now right | now left]. }
  unfold main_env_keys in Henv.
  inversion Henv as [|k1 l1 H1 Henv1]; subst.
  inversion Henv1 as [|k2 l2 H2 Henv2]; subst.
  inversion Henv2 as [|k3 l3 H3 Henv3]; subst.
  inversion Henv3 as [|k4 l4 H4 _]; subst.
  unfold main, copy_env.
  destruct (getenv ext (lit "LANGSMITH_API_KEY")) eqn:E1;
    [|exfalso; exact (H1 E1)].
  destruct (getenv ext (lit "LANGSMITH_TRACING_v2")) eqn:E2;
    [|exfalso; exact (H2 E2)].
  destruct (getenv ext (lit "LANGSMITH_PROJECT")) eqn:E3;
    [|exfalso; exact (H3 E3)].
  destruct (getenv ext (lit "LANGSMITH_ENDPOINT")) eqn:E4;
    [|exfalso; exact (H4 E4)].
  rewrite Hq.
  destruct Hconv as [->| ->]; destruct hist as [history|];
    cbv [bind emit ret get_session put_session is_none session screen
         conversation chat_history history_of];
    rewrite handle_userinput_no_chain;
    rewrite <- ?app_assoc; reflexivity.
Qed.

Lemma main_question_without_chain_sample :
  main sample_externals (ui blocked_run) blank_world
  = (Raise TypeError,
     {| session :=
          {| conversation := Some None;
             chat_history := Some [(lit "user", lit "What is the invoice total?")] |};
        screen :=
          [Write (lit "<style></style>");
           Header (lit "TalkDocs :books:");
           Subheader (lit "Chat with multiple PDFs");
           Write (lit "<div class='user'>What is the invoice total?</div>");
           PlaceholderMarkdown typing_html;
           Sleep 1500] |}).
Proof.
  apply (@main_question_without_chain sample_externals (ui blocked_run) blank_world).
  - repeat constructor; discriminate.
  - reflexivity.
  - reflexivity.
Defined.

(** ** Chunks are made of whole lines *)

Section MergeSegments.

Variable self : Splitter.CharacterTextSplitter.
Variable sep : str.
Hypothesis overlap_nonneg : (0 <= Splitter.chunk_overlap self)%Z.

(** Every chunk the loop emits joins pieces that stand next to each other
    in the input; [before] holds the pieces already dropped from
    [current_doc]. *)
Lemma merge_loop_segments splits : forall before cd docs,
  exists new cd' before',
    Splitter.merge_loop self sep splits (docs, cd, len (join sep cd))
    = Ok (docs ++ new, cd', len (join sep cd'))
    /\ before ++ cd ++ splits = before' ++ cd'
    /\ Forall (fun doc =>
                 exists b pieces a,
                   before ++ cd ++ splits = b ++ pieces ++ a
                   /\ Splitter.join_docs pieces sep = Some doc) new.
Proof.
  induction splits as [|d splits IH]; intros before cd docs.
  - exists [], cd, before. simpl. rewrite !app_nil_r. auto.
  - cbn [Splitter.merge_loop].
    destruct (merge_step_spec self sep overlap_nonneg docs cd d)
      as (docs' & dropped & kept & Hcd & -> & Hdocs & _).
    destruct (IH (before ++ dropped) (kept ++ [d]) docs')
      as (new & cd' & before' & -> & Hall & Hnew).
    assert (Heq : before ++ cd ++ d :: splits
                  = (before ++ dropped) ++ (kept ++ [d]) ++ splits).
    { subst cd. rewrite <- !app_assoc. reflexivity. }
    rewrite <- Heq in Hall, Hnew.
    destruct Hdocs as [->|(doc & Hdoc & ->)].
    + exists new, cd', before'. auto.
    + exists (doc :: new), cd', before'. rewrite <- app_assoc.
      split; [reflexivity|]. split; [exact Hall|].
      constructor; [|exact Hnew]. exists before, cd, (d :: splits). auto.
Qed.

Lemma split_text_segments text chunks :
  Splitter.split_text self text = Ok chunks ->
  Splitter.separator self = sep ->
  Forall (fun chunk =>
            exists b pieces a,
              filter truthy (split sep text) = b ++ pieces ++ a
              /\ Splitter.join_docs pieces sep = Some chunk) chunks.
Proof.
  unfold Splitter.split_text, Splitter.merge_splits. intros H Hsep.
  rewrite Hsep in H. revert H.
  set (splits := filter truthy (split sep text)).
  change 0%Z with (len (join sep [])).
  destruct (merge_loop_segments splits [] [] [])
    as (new & cd' & before' & -> & Hall & Hnew).
  cbn [app] in *.
  destruct (Splitter.join_docs cd' sep) as [doc|] eqn:Hdoc; intros [= <-].
  - apply Forall_app. split; [exact Hnew|]. constructor; [|constructor].
    exists before', cd', []. now rewrite app_nil_r.
  - exact Hnew.
Qed.

End MergeSegments.

(** X13. [get_text_chunks] never cuts inside a line: every chunk it
    returns is made of non-empty lines of the text that follow one another,
    joined by line breaks and stripped of the white space around. *)
Theorem get_text_chunks_whole_lines text chunks :
  get_text_chunks text = Ok chunks ->
  Forall (whole_lines (filter truthy (split nl text))) chunks.
Proof.
  unfold get_text_chunks. destruct (truthy text); cbn [negb].
  2:{ intros [= <-]. constructor. }
  intros H.
  pose proof (@split_text_segments text_splitter nl ltac:(simpl; lia)
                text chunks H eq_refl) as Hseg.
  apply Forall_forall. intros chunk Hin. rewrite Forall_forall in Hseg.
  destruct (Hseg chunk Hin) as (b & pieces & a & Hlines & Hdoc).
  exists b, pieces, a. split; [exact Hlines|].
  unfold Splitter.join_docs in Hdoc.
  destruct (truthy (strip (join nl pieces))) eqn:E; [|discriminate].
  injection Hdoc as <-. split; [|reflexivity].
  intros ->. discriminate E.
Qed.

Lemma get_text_chunks_whole_lines_sample :
  Forall (whole_lines [repeat 97%N 600; repeat 98%N 300; repeat 99%N 500])
    [repeat 97%N 600 ++ nl ++ repeat 98%N 300; repeat 99%N 500].
Proof.
  apply (@get_text_chunks_whole_lines
           (repeat 97%N 600 ++ nl ++ repeat 98%N 300 ++ nl ++ nl
            ++ repeat 99%N 500)).
  vm_compute. reflexivity.
Defined.

(** ** Rendering a message *)

Lemma starts_with_app sep s : starts_with sep (sep ++ s) = true.
Proof.
  induction sep as [|c sep IH]; simpl; [reflexivity|].
  now rewrite N.eqb_refl, IH.
Qed.

Lemma split_go_skip sep a : forall cur s,
  split_go sep (length a) cur (a ++ s) = split_go sep 0 cur s.
Proof.
  induction a as [|x a IH]; intros cur s; [reflexivity|].
  simpl. apply IH.
Qed.

(** Characters other than the first of the separator are read through. *)
Lemma split_go_read h t p : forall cur s,
  ~ In h p ->
  split_go (h :: t) 0 cur (p ++ s) = split_go (h :: t) 0 (rev p ++ cur) s.
Proof.
  induction p as [|c p IH]; intros cur s Hin; [reflexivity|].
  cbn [app split_go starts_with].
  destruct (N.eqb_spec h c) as [->|Hne]; [exfalso; apply Hin; now left|].
  cbn [andb]. rewrite IH by (intros H; apply Hin; now right).
  simpl. now rewrite <- app_assoc.
Qed.

Lemma split_once h t prefix suffix :
  ~ In h prefix -> ~ In h suffix ->
  split (h :: t) (prefix ++ (h :: t) ++ suffix) = [prefix; suffix].
Proof.
  intros Hp Hs. unfold split. rewrite split_go_read by exact Hp.
  rewrite app_nil_r.
  change ((h :: t) ++ suffix) with (h :: (t ++ suffix)).
  cbn [split_go].
  change (h :: t ++ suffix) with ((h :: t) ++ suffix).
  rewrite starts_with_app. cbn [length pred].
  rewrite split_go_skip, rev_involutive.
  f_equal. rewrite <- (app_nil_r suffix) at 1.
  rewrite split_go_read by exact Hs. simpl. now rewrite !app_nil_r, rev_involutive.
Qed.

(** X14. A message is written into its template as it is: when the
    template of its role (the user template for the role "user", the bot
    template for any other role) has the placeholder once and no other
    opening brace, the HTML written is the template with the message in the
    place of the placeholder, no character of the message changed or
    escaped. *)
Theorem render_verbatim ext role msg prefix suffix :
  (if str_eqb role (lit "user") then user_template ext else bot_template ext)
  = prefix ++ lit "{{MSG}}" ++ suffix ->
  ~ In 123%N prefix ->
  ~ In 123%N suffix ->
  render ext (role, msg) = Write (prefix ++ msg ++ suffix).
Proof.
  intros Htemplate Hp Hs. unfold render, replace.
  destruct (str_eqb role (lit "user")); rewrite Htemplate;
    change (lit "{{MSG}}") with (123%N :: lit "{MSG}}");
    rewrite split_once by assumption; reflexivity.
Qed.

Lemma render_verbatim_sample :
  render sample_externals (lit "bot", lit "<b>{{MSG}}</b>")
  = Write (lit "<div class='bot'>" ++ lit "<b>{{MSG}}</b>" ++ lit "</div>").
Proof.
  apply (@render_verbatim sample_externals (lit "bot") (lit "<b>{{MSG}}</b>")
           (lit "<div class='bot'>") (lit "</div>")).
  - reflexivity.
  - vm_compute. intuition discriminate.
  - vm_compute. intuition discriminate.
Defined.

(** ** Processing, then asking *)

Lemma handle_userinput_with_chain ext q chain history scr :
  handle_userinput ext q
    {| session := {| conversation := Some (Some chain);
                     chat_history := Some history |};
       screen := scr |}
  = match answer ext chain q with
    | Ok bot_reply =>
        (Ok tt,
         {| session :=
              {| conversation := Some (Some chain);
                 chat_history :=
                   Some (history ++ [(lit "user", q); (lit "bot", bot_reply)]) |};
            screen :=
              scr ++ map (render ext) (history ++ [(lit "user", q)])
              ++ [PlaceholderMarkdown typing_html; Sleep 1500; Invoke q;
                  PlaceholderEmpty;
                  Write (replace (lit "{{MSG}}") bot_reply (bot_template ext))] |})
    | Raise e =>
        (Raise e,
         {| session :=
              {| conversation := Some (Some chain);
                 chat_history := Some (history ++ [(lit "user", q)]) |};
            screen :=
              scr ++ map (render ext) (history ++ [(lit "user", q)])
              ++ [PlaceholderMarkdown typing_html; Sleep 1500; Invoke q] |})
    end.
Proof.
  unfold handle_userinput.
  cbv [bind get_session put_session append_history ret session screen
       conversation chat_history].
  rewrite emit_all_spec.
  cbv [bind emit ask append_history get_session put_session of_result
       session screen conversation chat_history].
  destruct (answer ext chain q) as [bot_reply|e];
    rewrite <- !app_assoc; reflexivity.
Qed.

Ltac configured Henv :=
  unfold main_env_keys in Henv;
  let H1 := fresh in let H2 := fresh in let H3 := fresh in let H4 := fresh in
  let T1 := fresh in let T2 := fresh in let T3 := fresh in
  inversion Henv as [|? ? H1 T1]; subst;
  inversion T1 as [|? ? H2 T2]; subst;
  inversion T2 as [|? ? H3 T3]; subst;
  inversion T3 as [|? ? H4 ?]; subst;
  unfold main, copy_env;
  let E := fresh in
  destruct (getenv _ (lit "LANGSMITH_API_KEY")) eqn:E;
    [clear E|exfalso; exact (H1 E)];
  destruct (getenv _ (lit "LANGSMITH_TRACING_v2")) eqn:E;
    [clear E|exfalso; exact (H2 E)];
  destruct (getenv _ (lit "LANGSMITH_PROJECT")) eqn:E;
    [clear E|exfalso; exact (H3 E)];
  destruct (getenv _ (lit "LANGSMITH_ENDPOINT")) eqn:E;
    [clear E|exfalso; exact (H4 E)].

(** A run that only processes a good upload binds the new chain and gives
    the session its history entry. *)
Lemma rerun_process_success s r :
  Forall (fun key => getenv (outside r) key <> None) main_env_keys ->
  user_question (ui r) = [] ->
  process_clicked (ui r) = true ->
  pdf_docs (ui r) <> [] ->
  failed_stage (outside r) (pdf_docs (ui r)) = None ->
  exists chunks,
    get_text_chunks (concat (map file_text_of (pdf_docs (ui r)))) = Ok chunks
    /\ chunks <> []
    /\ rerun s r
       = {| conversation := Some (Some (chain_over chunks));
            chat_history := Some (history_of s) |}.
Proof.
  intros Henv Hq Hclick Hne Hok. unfold rerun, run_action.
  destruct r as [ext [q docs clicked]]. cbn [outside ui] in *.
  cbn [user_question pdf_docs process_clicked] in *. subst q clicked.
  assert (Hproc : forall w, exists chunks,
    get_text_chunks (concat (map file_text_of docs)) = Ok chunks
    /\ chunks <> []
    /\ process ext docs w
       = (Ok tt,
          {| session := {| conversation := Some (Some (chain_over chunks));
                           chat_history := chat_history (session w) |};
             screen := screen w ++ map Enter (stages_through ChainConstruction)
                       ++ [Success processed_message] |})).
  { intros w. destruct (@process_cases ext docs w Hne)
      as [(warn & _ & H)|[(_ & H)|[(_ & H)|[(e & st & _ & _ & H)
          |(chunks & Hchunks & Hnil & Hrun & _)]]]]; try congruence.
    exists chunks. auto. }
  configured Henv.
  destruct s as [conv hist].
  destruct conv as [conv|]; destruct hist as [history|];
    cbv [bind emit ret get_session put_session is_none session screen
         conversation chat_history truthy user_question pdf_docs
         process_clicked];
    match goal with
    | |- context [process ext docs ?w] =>
        destruct (Hproc w) as (chunks & Hchunks & Hnil & ->)
    end;
    exists chunks; auto.
Qed.

(** X15. Processing, then asking.  From any session, a run that only
    processes a non-empty upload whose four stages succeed, followed by a run
    that only asks a question, leaves the session bound to the chain built
    over the chunks of the upload, with the chat history as it was, then the
    question, then the reply of that chain to it; when the chain raises, the
    history ends with the question. *)
Theorem ask_after_process s r1 r2 :
  Forall (fun key => getenv (outside r1) key <> None) main_env_keys ->
  Forall (fun key => getenv (outside r2) key <> None) main_env_keys ->
  user_question (ui r1) = [] ->
  process_clicked (ui r1) = true ->
  pdf_docs (ui r1) <> [] ->
  failed_stage (outside r1) (pdf_docs (ui r1)) = None ->
  truthy (user_question (ui r2)) = true ->
  process_clicked (ui r2) = false ->
  exists chunks,
    get_text_chunks (concat (map file_text_of (pdf_docs (ui r1)))) = Ok chunks
    /\ rerun (rerun s r1) r2
       = {| conversation := Some (Some (chain_over chunks));
            chat_history :=
              Some (history_of s
                    ++ (lit "user", user_question (ui r2))
                    :: match answer (outside r2) (chain_over chunks)
                               (user_question (ui r2)) with
                       | Ok bot_reply => [(lit "bot", bot_reply)]
                       | Raise _ => []
                       end) |}.
Proof.
  intros Henv1 Henv2 Hq1 Hclick1 Hne Hok Hq2 Hclick2.
  destruct (rerun_process_success s r1 Henv1 Hq1 Hclick1 Hne Hok)
    as (chunks & Hchunks & _ & ->).
  exists chunks. split; [exact Hchunks|].
  unfold rerun, run_action.
  destruct r2 as [ext [q docs clicked]]. cbn [outside ui] in *.
  cbn [user_question pdf_docs process_clicked] in *. subst clicked.
  configured Henv2.
  cbv [bind emit ret get_session put_session is_none session screen
       conversation chat_history user_question pdf_docs process_clicked].
  rewrite Hq2. rewrite handle_userinput_with_chain.
  destruct (answer ext (chain_over chunks) q) as [bot_reply|e];
    cbv [bind emit ret session screen]; cbn [session];
    rewrite <- ?app_assoc; reflexivity.
Qed.

Lemma ask_after_process_sample :
  exists chunks,
    get_text_chunks (concat (map file_text_of [invoice_pdf])) = Ok chunks
    /\ rerun (rerun session_empty invoice_run) invoice_question_run
       = {| conversation := Some (Some (chain_over chunks));
            chat_history :=
              Some (history_of session_empty
                    ++ (lit "user", lit "What is the invoice total?")
                    :: match answer sample_externals (chain_over chunks)
                               (lit "What is the invoice total?") with
                       | Ok bot_reply => [(lit "bot", bot_reply)]
                       | Raise _ => []
                       end) |}.
Proof.
  apply (@ask_after_process session_empty invoice_run invoice_question_run).
  - repeat constructor; discriminate.
  - repeat constructor; discriminate.
  - reflexivity.
  - reflexivity.
  - discriminate.
  - reflexivity.
  - reflexivity.
  - reflexivity.
Defined.

(** ** The chain is bound by a Process action carried through, and by
    nothing else *)

(** In a session without a chain, a run whose Process would succeed either
    never gets to it (a missing variable, or the question raising) and
    leaves the session without a chain, or enters the four stages. *)
Lemma rerun_idle_reached s r :
  idle s ->
  fully_successful r = true ->
  idle (rerun s r)
  \/ entered (run_page s r) = stages_through ChainConstruction.
Proof.
  intros Hidle Hr. destruct r as [ext [q docs clicked]].
  unfold fully_successful in Hr. cbn [outside ui process_clicked pdf_docs] in Hr.
  apply andb_true_iff in Hr as [Hr Hok]. apply andb_true_iff in Hr as [-> Hne].
  assert (Hdocs : docs <> []) by (destruct docs; [discriminate | discriminate]).
  assert (Hnone : failed_stage ext docs = None)
    by (destruct (failed_stage ext docs); [discriminate | reflexivity]).
  assert (Hproc : forall w, exists chunks,
    process ext docs w
    = (Ok tt,
       {| session := {| conversation := Some (Some (chain_over chunks));
                        chat_history := chat_history (session w) |};
          screen := screen w ++ map Enter (stages_through ChainConstruction)
                    ++ [Success processed_message] |})).
  { intros w. destruct (@process_cases ext docs w Hdocs)
      as [(warn & _ & H)|[(_ & H)|[(_ & H)|[(e & st & _ & _ & H)
          |(chunks & _ & _ & Hrun & _)]]]]; try congruence.
    exists chunks. exact Hrun. }
  assert (Hconv : conversation s = None \/ conversation s = Some None).
  { unfold idle, chain_of in Hidle.
    destruct (conversation s) as [[chain|]|]; [discriminate | now right | now left]. }
  destruct s as [conv hist]. cbn [conversation] in Hconv.
  unfold rerun, run_page, run_action, idle, chain_of.
  cbn [outside ui]. unfold main, copy_env.
  destruct (getenv ext (lit "LANGSMITH_API_KEY")); [|left; exact Hidle].
  destruct (getenv ext (lit "LANGSMITH_TRACING_v2")); [|left; exact Hidle].
  destruct (getenv ext (lit "LANGSMITH_PROJECT")); [|left; exact Hidle].
  destruct (getenv ext (lit "LANGSMITH_ENDPOINT")); [|left; exact Hidle].
  cbn [user_question pdf_docs process_clicked].
  destruct (truthy q) eqn:Hq.
  - left.
    destruct Hconv as [->| ->]; destruct hist as [history|];
      cbv [bind emit ret get_session put_session is_none session screen
           conversation chat_history];
      rewrite handle_userinput_no_chain; reflexivity.
  - right.
    destruct Hconv as [->| ->]; destruct hist as [history|];
      cbv [bind emit ret get_session put_session is_none session screen
           conversation chat_history];
      match goal with
      | |- context [process ext docs ?w] =>
          destruct (Hproc w) as (chunks & ->)
      end;
      cbn [session screen]; rewrite <- ?app_assoc; reflexivity.
Qed.

Lemma rerun_idle_unless s r :
  idle s -> carries_out_process s r = false -> idle (rerun s r).
Proof.
  intros Hidle Hno. unfold carries_out_process in Hno.
  destruct (fully_successful r) eqn:Hr; [|now apply rerun_idle].
  destruct (@rerun_idle_reached s r Hidle Hr) as [H|H]; [exact H|].
  rewrite H in Hno. simpl in Hno. discriminate Hno.
Qed.

Lemma fold_rerun_idle_unless runs : forall s,
  idle s ->
  (forall before r after,
     runs = before ++ r :: after ->
     carries_out_process (fold_left rerun before s) r = false) ->
  idle (fold_left rerun runs s).
Proof.
  induction runs as [|r runs IH]; intros s Hs Hno; [exact Hs|].
  simpl. apply IH.
  - apply rerun_idle_unless; [exact Hs|]. now apply (Hno [] r runs).
  - intros before r' after Heq.
    apply (Hno (r :: before) r' after). simpl. now rewrite Heq.
Qed.

(** C8. A session starts without a conversation chain, and it is bound to
    none for as long as no run of the script, started in the session its
    predecessors left, gets to the Process action and carries it through on
    a non-empty upload with extraction, chunking, index construction and
    chain construction all succeeding in sequence: only such a run assigns a
    chain.  A run that presses Process on a good upload without getting to
    it (a missing environment variable, or a pending question that raises)
    is not such a run. *)
Theorem chain_null_until_success runs :
  (forall before r after,
     runs = before ++ r :: after ->
     carries_out_process (session_after before) r = false) ->
  chain_of (session_after runs) = None.
Proof.
  intros Hno. apply fold_rerun_idle_unless; [reflexivity | exact Hno].
Qed.

Lemma chain_null_until_success_sample :
  chain_of (session_after
              [blocked_run; unconfigured_run; blocked_run;
               question_first_run; corrupted_upload_run; no_upload_run])
  = None.
Proof.
  apply (@chain_null_until_success
           [blocked_run; unconfigured_run; blocked_run;
            question_first_run; corrupted_upload_run; no_upload_run]).
  intros before r after H.
  destruct before as [|r0 before]; [injection H as <- _; reflexivity|].
  injection H as <- H.
  destruct before as [|r1 before]; [injection H as <- _; reflexivity|].
  injection H as <- H.
  destruct before as [|r2 before]; [injection H as <- _; reflexivity|].
  injection H as <- H.
  destruct before as [|r3 before]; [injection H as <- _; reflexivity|].
  injection H as <- H.
  destruct before as [|r4 before]; [injection H as <- _; reflexivity|].
  injection H as <- H.
  destruct before as [|r5 before]; [injection H as <- _; reflexivity|].
  injection H as <- H.
  destruct before; discriminate H.
Defined.
